(** * styberg-news: the directory groupers of [main.js] and the forecast
      bucketer of [src/components/Weather.js]

    A shallow embedding of the three data transformations of the dashboard:
    the ['get-news-articles'] and ['get-announcements'] IPC handlers of
    [main.js] and [processForecastData] of [Weather.js], together with the
    pieces of the JavaScript and Node run time they rest on. *)

From Stdlib Require Import List String Ascii Bool Arith NArith ZArith QArith Lia.
From Stdlib.Strings Require Import Byte.
From Stdlib Require Import Permutation Sorted DecimalString.
Import ListNotations.

Local Close Scope Q_scope.
Local Open Scope nat_scope.
Local Open Scope string_scope.
Local Open Scope list_scope.

(* ================================================================== *)
(** ** JavaScript strings

    A string is a sequence of code units; the embedding takes the code units
    [0..255], one [ascii] each.  [length], comparison and equality are those
    of the code-unit sequence, as in JavaScript. *)

Module JsString.

Definition code (c : ascii) : N := N_of_ascii c.

(** [String.prototype.toLowerCase] on one code unit: [A-Z] and the
    upper-case letters of the Latin-1 block move up by 32. *)
Definition lower_char (c : ascii) : ascii :=
  let n := code c in
  if ((65 <=? n) && (n <=? 90))%N
     || ((192 <=? n) && (n <=? 222) && negb (n =? 215))%N
  then ascii_of_N (n + 32) else c.

Fixpoint toLowerCase (s : string) : string :=
  match s with
  | EmptyString => EmptyString
  | String c s' => String (lower_char c) (toLowerCase s')
  end.

(** White space and line terminators that [trim] removes: TAB, LF, VT, FF,
    CR, SP and NBSP are the ones among the code units [0..255]. *)
Definition is_white (c : ascii) : bool :=
  let n := code c in
  (((9 <=? n) && (n <=? 13)) || (n =? 32) || (n =? 160))%N.

Fixpoint trimStart (s : string) : string :=
  match s with
  | EmptyString => EmptyString
  | String c s' => if is_white c then trimStart s' else s
  end.

Fixpoint trimEnd (s : string) : string :=
  match s with
  | EmptyString => EmptyString
  | String c s' =>
      match trimEnd s' with
      | EmptyString => if is_white c then EmptyString else String c EmptyString
      | r => String c r
      end
  end.

Definition trim (s : string) : string := trimEnd (trimStart s).

(** [s.endsWith(suf)], returning what precedes the suffix. *)
Definition strip_suffix (s suf : string) : option string :=
  let n := String.length s - String.length suf in
  if String.eqb (substring n (String.length suf) s) suf
     && (String.length suf <=? String.length s)%nat
  then Some (substring 0 n s) else None.

(** A string in a boolean context: only the empty string is falsy. *)
Definition truthy (s : string) : bool := negb (String.eqb s "").

(** [arr.includes(x)] on an array of strings. *)
Definition includes (l : list string) (x : string) : bool :=
  existsb (String.eqb x) l.

(** Relational operators on strings compare code units lexicographically. *)
Definition lt (a b : string) : bool := String.ltb a b.
Definition ge (a b : string) : bool := negb (String.ltb a b).

End JsString.

(* ================================================================== *)
(** ** Node's [path] module on directory entries

    [fs.promises.readdir] yields entry names: single path components, free of
    separators (and, on Windows, of the drive colon), on which [path.posix]
    and [path.win32] agree.  [extname] and [basename] are given for such
    names, after Node's documentation. *)

Module NodePath.

(** The part of [s] from its last dot on, if it has a dot. *)
Fixpoint from_last_dot (s : string) : option string :=
  match s with
  | EmptyString => None
  | String c s' =>
      match from_last_dot s' with
      | Some e => Some e
      | None => if Ascii.eqb c "." then Some s else None
      end
  end.

(** [path.extname(name)]: from the last dot to the end; empty when there is
    no dot, when the last dot is the first character, and for [".."]. *)
Definition extname (name : string) : string :=
  match name with
  | EmptyString => ""
  | String _ rest =>
      match from_last_dot rest with
      | Some e => if String.eqb name ".." then "" else e
      | None => ""
      end
  end.

(** [path.basename(name, suffix)]: the name, without [suffix] when the name
    ends with it.  The comparison is by code unit, so it is case-sensitive
    (on Windows too); a suffix equal to the whole name leaves [""]. *)
Definition basename (name suffix : string) : string :=
  if negb (String.eqb suffix "")
     && (String.length suffix <=? String.length name)%nat
  then
    if String.eqb suffix name then ""
    else match JsString.strip_suffix name suffix with
         | Some stem => stem
         | None => name
         end
  else name.

End NodePath.

(* ================================================================== *)
(** ** Plain objects used as string-keyed maps

    [fileGroups], [groupedData] and [conditionCounts] are objects created by
    [{}] and filled by assignment to computed keys.  An object is its own
    properties in creation order; no property is ever deleted.  Property
    enumeration ([for ... in], [Object.keys]) follows the language's order of
    own keys: first the keys that are array indices, by ascending value, then
    the other keys by creation.  A lookup that finds no own property goes on
    to [Object.prototype]: what it finds there is given at the end of the
    module. *)

Module JsObject.

Definition obj (V : Type) := list (string * V).

Section Ops.
Context {V : Type}.

Definition empty : obj V := [].

Fixpoint get (k : string) (o : obj V) : option V :=
  match o with
  | [] => None
  | (k', v) :: o' => if String.eqb k k' then Some v else get k o'
  end.

(** [o[k] = v]: an existing property keeps its place, a new one is
    created last. *)
Fixpoint set (k : string) (v : V) (o : obj V) : obj V :=
  match o with
  | [] => [(k, v)]
  | (k', v') :: o' =>
      if String.eqb k k' then (k', v) :: o' else (k', v') :: set k v o'
  end.

Definition created (o : obj V) : list string := map fst o.

End Ops.

(** *** Array indices *)

Definition digit (c : ascii) : option N :=
  let n := JsString.code c in
  if ((48 <=? n) && (n <=? 57))%N then Some (n - 48)%N else None.

Fixpoint decimal (acc : N) (s : string) : option N :=
  match s with
  | EmptyString => Some acc
  | String c s' =>
      match digit c with
      | Some d => decimal (acc * 10 + d)%N s'
      | None => None
      end
  end.

(** A key is an array index when it is the canonical decimal form of an
    integer in [0 .. 2^32 - 2]. *)
Definition array_index (k : string) : option N :=
  match k with
  | EmptyString => None
  | String c rest =>
      if Ascii.eqb c "0" && negb (String.eqb rest "") then None
      else match decimal 0 k with
           | Some n => if (n <=? 4294967294)%N then Some n else None
           | None => None
           end
  end.

Definition is_index (k : string) : bool :=
  match array_index k with Some _ => true | None => false end.

Definition index_value (k : string) : N :=
  match array_index k with Some n => n | None => 0%N end.

Fixpoint insert_index (k : string) (l : list string) : list string :=
  match l with
  | [] => [k]
  | k' :: l' =>
      if (index_value k <=? index_value k')%N then k :: l
      else k' :: insert_index k l'
  end.

Definition sort_indices (l : list string) : list string :=
  fold_right insert_index [] l.

(** The own keys in enumeration order. *)
Definition keys {V : Type} (o : obj V) : list string :=
  sort_indices (filter is_index (created o))
    ++ filter (fun k => negb (is_index k)) (created o).

(** *** What a plain object inherits

    The prototype of an object made by [{}] is [Object.prototype].  As the
    engine creates it, [Object.prototype] has eleven function properties and
    the accessor [__proto__], whose getter answers [Object.prototype] itself
    and whose setter ignores a value that is neither an object nor [null].
    None of them is enumerable; the functions are writable, so that an
    assignment under their name creates an own property of the object
    assigned to. *)
Definition prototype_methods : list string :=
  ["constructor"; "__defineGetter__"; "__defineSetter__"; "hasOwnProperty";
   "__lookupGetter__"; "__lookupSetter__"; "isPrototypeOf";
   "propertyIsEnumerable"; "toString"; "valueOf"; "toLocaleString"].

(** What [o[k]] finds on [Object.prototype] when [k] is no own property of
    [o]. *)
Inductive inherited : Type :=
| Method              (* one of the functions *)
| ObjectPrototype     (* [Object.prototype], through [__proto__] *)
| Nothing.

Definition inherit (k : string) : inherited :=
  if String.eqb k "__proto__" then ObjectPrototype
  else if JsString.includes prototype_methods k then Method
  else Nothing.

(** [k] is the name of a member of [Object.prototype]. *)
Definition names_member (k : string) : bool :=
  match inherit k with
  | Nothing => false
  | _ => true
  end.

End JsObject.

(* ================================================================== *)
(** ** The run time around the handlers: failures, the file system and
       the libraries, the console, and the encoding of the image branch *)

Module Runtime.
Import JsObject.

(** A thrown value (a Node [Error]), by its message. *)
Definition error := string.

(** The completion of an awaited call: a value, or a rejection that the
    enclosing [try] turns into control flow. *)
Inductive result (A : Type) : Type :=
| Ok (a : A)
| Err (e : error).
Arguments Ok {A} a.
Arguments Err {A} e.

Definition bind {A B : Type} (r : result A) (k : A -> result B) : result B :=
  match r with
  | Ok a => k a
  | Err e => Err e
  end.

(** [for (const x of l) { s = await f(s, x) }], leaving the loop at the
    first rejection. *)
Fixpoint for_of {A S : Type} (f : S -> A -> result S) (l : list A) (s : S)
  : result S :=
  match l with
  | [] => Ok s
  | x :: l' => bind (f s x) (for_of f l')
  end.

(** The enumerable properties that the news scans of the process can
    have added to [Object.prototype] before a handler is called: none of
    them, [textFile], [imageFile], or both, created in either order. *)
Inductive pollution : Type :=
| Pristine
| TextFile (text : string)
| ImageFile (image : string)
| TextThenImage (text image : string)
| ImageThenText (image text : string).

Definition properties (p : pollution) : obj string :=
  match p with
  | Pristine => []
  | TextFile text => [("textFile", text)]
  | ImageFile image => [("imageFile", image)]
  | TextThenImage text image => [("textFile", text); ("imageFile", image)]
  | ImageThenText image text => [("imageFile", image); ("textFile", text)]
  end.

(** What the handlers find around them.  [readdir] lists a directory,
    [readFile] reads the bytes of a file, [readFileUtf8] reads it decoded
    (the call with ['utf-8']); any of them may reject.  [lookup] is
    [mime.lookup] of the package that [require('mime')] resolves to: it
    answers a type or a falsy value ([None]), or it throws, as the call does
    when the package has no such function.  [MAX_STRING_LENGTH] is the
    length of the longest string that the engine makes
    ([buffer.constants.MAX_STRING_LENGTH]).  [objectPrototype] is what
    the earlier scans of the process have left on [Object.prototype]. *)
Record FileSystem : Type := {
  readdir : string -> result (list string);
  readFile : string -> result (list byte);
  readFileUtf8 : string -> result string;
  lookup : string -> result (option string);
  MAX_STRING_LENGTH : N;
  objectPrototype : pollution
}.

(** [path.join(dir, entry)] for a directory entry: the separator is the one
    of the platform of the configured directories. *)
Definition join (dir entry : string) : string := dir ++ "\" ++ entry.

(** What an IPC handler leaves behind: the value its promise resolves to,
    or the rejection it propagates to the caller, and what it wrote with
    [console.error]. *)
Inductive completion (A : Type) : Type :=
| Returns (v : A)
| Throws (e : error).
Arguments Returns {A} v.
Arguments Throws {A} e.

Record run (A : Type) : Type := {
  outcome : completion A;
  console : list (string * error)
}.
Arguments outcome {A} r.
Arguments console {A} r.

(** *** [Buffer.prototype.toString('base64')] *)

Definition base64_char (i : N) : ascii :=
  if (i <? 26)%N then ascii_of_N (65 + i)
  else if (i <? 52)%N then ascii_of_N (97 + (i - 26))
  else if (i <? 62)%N then ascii_of_N (48 + (i - 52))
  else if (i =? 62)%N then "+"%char else "/"%char.

Definition sextet (n : N) (k : N) : ascii :=
  base64_char (N.land (N.shiftr n (6 * k)) 63).

Fixpoint base64 (bs : list byte) : string :=
  match bs with
  | [] => ""
  | [a] =>
      let n := N.shiftl (Byte.to_N a) 16 in
      String (sextet n 3) (String (sextet n 2) "==")
  | [a; b] =>
      let n := N.lor (N.shiftl (Byte.to_N a) 16) (N.shiftl (Byte.to_N b) 8) in
      String (sextet n 3) (String (sextet n 2) (String (sextet n 1) "="))
  | a :: b :: c :: rest =>
      let n := N.lor (N.lor (N.shiftl (Byte.to_N a) 16)
                            (N.shiftl (Byte.to_N b) 8)) (Byte.to_N c) in
      String (sextet n 3) (String (sextet n 2)
        (String (sextet n 1) (String (sextet n 0) (base64 rest))))
  end.

(** *** [mime.lookup] of version 1 of the [mime] package

    Its type table, restricted to the image extensions: the handler only
    looks up names that it has classified as images.  [None] stands for a
    falsy answer. *)
Definition mime_lookup (name : string) : option string :=
  let ext := JsString.toLowerCase (NodePath.extname name) in
  if String.eqb ext ".jpg" || String.eqb ext ".jpeg" then Some "image/jpeg"
  else if String.eqb ext ".png" then Some "image/png"
  else if String.eqb ext ".gif" then Some "image/gif"
  else if String.eqb ext ".bmp" then Some "image/bmp"
  else None.

End Runtime.

Declare Scope js_scope.
Delimit Scope js_scope with js.
Notation "'let*' x ':=' e 'in' k" :=
  (Runtime.bind e (fun x => k))
  (at level 10, x name, e at level 100, k at level 200)
  : js_scope.

(* ================================================================== *)
(** ** [main.js]: the news and announcement handlers *)

Module Main.
Import JsString NodePath JsObject Runtime.
Local Open Scope js_scope.

Definition announcementsDir : string :=
  "\\sty-fs-1\Users\Public\STYBERGNEWS\Announcements".
Definition newsDir : string :=
  "\\sty-fs-1\Users\Public\STYBERGNEWS\News".

(** A value of [fileGroups]: [{}] with [textFile] and [imageFile] set as
    files of either class are met. *)
Record group : Type := {
  textFile : option string;
  imageFile : option string
}.

Definition empty_group : group := {| textFile := None; imageFile := None |}.

(** [group.textFile] and [group.imageFile] in a condition: [undefined] and
    the empty string are falsy. *)
Definition present (f : option string) : bool :=
  match f with
  | Some name => truthy name
  | None => false
  end.

Record Article : Type := {
  type : string;
  title : string;
  description : string;
  imagePath : option string      (* [None] is [null] *)
}.

Record Announcement : Type := { content : string }.

Definition image_extensions : list string :=
  [".jpg"; ".jpeg"; ".png"; ".gif"; ".bmp"].

(** The two locals of the first loop. *)
Definition ext_of (file : string) : string := toLowerCase (extname file).
Definition baseName_of (file : string) : string := basename file (ext_of file).

(** *** The objects of the scan

    [fileGroups] with its own properties, and the enumerable properties of
    [Object.prototype]: those that it had when the handler was called, and
    those that the scan adds when it meets a file of stem [__proto__].
    They outlive the scan. *)
Record heap : Type := {
  fileGroups : obj group;
  prototype : obj string
}.

(** What [fileGroups[baseName]] can be. *)
Inductive value : Type :=
| Group (g : group)     (* an own property: one of the groups *)
| Builtin               (* a function of [Object.prototype] *)
| Prototype             (* [Object.prototype], under [__proto__] *)
| Text (name : string)  (* a file name that the scan has put on
                           [Object.prototype] *)
| Undefined.

Definition property (h : heap) (baseName : string) : value :=
  match get baseName (fileGroups h) with
  | Some g => Group g
  | None =>
      match inherit baseName with
      | ObjectPrototype => Prototype
      | Method => Builtin
      | Nothing =>
          match get baseName (prototype h) with
          | Some name => Text name
          | None => Undefined
          end
      end
  end.

(** The value in a condition. *)
Definition truthy_value (v : value) : bool :=
  match v with
  | Text name => truthy name
  | Undefined => false
  | _ => true
  end.

Definition own_field (g : group) (field : string) : option string :=
  if String.eqb field "textFile" then textFile g
  else if String.eqb field "imageFile" then imageFile g
  else None.

Definition with_field (g : group) (field file : string) : group :=
  if String.eqb field "textFile"
  then {| textFile := Some file; imageFile := imageFile g |}
  else {| textFile := textFile g; imageFile := Some file |}.

(** [v.textFile] and [v.imageFile]: the own field of a group, and
    otherwise, as for any value but [undefined], what [Object.prototype]
    has under that name.  (A function could have the field itself, by an
    earlier assignment; [for ... in] yields no key that leads to one.) *)
Definition get_field (h : heap) (v : value) (field : string)
  : option string :=
  match v with
  | Group g =>
      match own_field g field with
      | Some name => Some name
      | None => get field (prototype h)
      end
  | Undefined => None
  | _ => get field (prototype h)
  end.

(** [fileGroups[baseName].field = file].  On a group it sets the field; on
    [Object.prototype] it adds or changes a property that every object
    inherits; on a function it sets a property that nothing reads; on a
    string it does nothing, the module being in sloppy mode.  The value is
    not [undefined] where the handler assigns. *)
Definition assign (h : heap) (baseName field file : string) : heap :=
  match property h baseName with
  | Group g =>
      {| fileGroups := set baseName (with_field g field file) (fileGroups h);
         prototype := prototype h |}
  | Prototype =>
      {| fileGroups := fileGroups h;
         prototype := set field file (prototype h) |}
  | Builtin => h
  | Text _ => h
  | Undefined => h
  end.

(** One turn of [for (const file of files)] in ['get-news-articles']. *)
Definition group_file (h : heap) (file : string) : heap :=
  let ext := ext_of file in
  let baseName := baseName_of file in
  let h :=
    if truthy_value (property h baseName) then h
    else {| fileGroups := set baseName empty_group (fileGroups h);
            prototype := prototype h |} in
  if String.eqb ext ".txt" then assign h baseName "textFile" file
  else if includes image_extensions ext then
    assign h baseName "imageFile" file
  else h.

(** The first loop, from [Object.prototype] as it is found. *)
Definition group_files (prototype : obj string) (files : list string)
  : heap :=
  fold_left group_file files
            {| fileGroups := empty; prototype := prototype |}.

(** The keys that [for (const baseName in fileGroups)] goes through: the
    own keys, then the enumerable properties of [Object.prototype] that no
    own key hides. *)
Definition for_in (h : heap) : list string :=
  keys (fileGroups h)
    ++ filter (fun k => match get k (fileGroups h) with
                        | Some _ => false
                        | None => true
                        end)
              (keys (prototype h)).

(** [mime.lookup(name) || 'application/octet-stream']. *)
Definition mimeType_of (fs : FileSystem) (name : string) : result string :=
  let* found := lookup fs name in
  Ok (match found with
      | Some mimeType =>
          if truthy mimeType then mimeType else "application/octet-stream"
      | None => "application/octet-stream"
      end).

(** [imageBuffer.toString('base64')], which throws for a text longer than
    the engine allows. *)
Definition toString_base64 (fs : FileSystem) (imageBuffer : list byte)
  : result string :=
  let encoded := base64 imageBuffer in
  if (N.of_nat (String.length encoded) <=? MAX_STRING_LENGTH fs)%N
  then Ok encoded
  else Err "ERR_STRING_TOO_LONG".

Definition data_uri (mimeType encoded : string) : string :=
  "data:" ++ mimeType ++ ";base64," ++ encoded.

(** The body of [if (group.imageFile)]: the read, the type, and the
    template literal, which throws for a result longer than the engine
    allows. *)
Definition image_data (fs : FileSystem) (name : string) : result string :=
  let* imageBuffer := readFile fs (join newsDir name) in
  let* mimeType := mimeType_of fs name in
  let* encoded := toString_base64 fs imageBuffer in
  let imageData := data_uri mimeType encoded in
  if (N.of_nat (String.length imageData) <=? MAX_STRING_LENGTH fs)%N
  then Ok imageData
  else Err "RangeError: Invalid string length".

(** The body of a turn of [for (const baseName in fileGroups)], given what
    [group.textFile] and [group.imageFile] are. *)
Definition article_of (fs : FileSystem)
    (group_textFile group_imageFile : option string)
    (articles : list Article) (baseName : string) : result (list Article) :=
  let* imageData :=
    (match group_imageFile with
     | Some name =>
         if truthy name then
           let* imageData := image_data fs name in Ok (Some imageData)
         else Ok None
     | None => Ok None
     end) in
  if present group_textFile && present group_imageFile then
    let* textContent :=
      readFileUtf8 fs (join newsDir (match group_textFile with
                                     | Some name => name
                                     | None => ""
                                     end)) in
    Ok (articles ++ [{| type := "article"; title := baseName;
                        description := trim textContent;
                        imagePath := imageData |}])
  else if present group_textFile then
    let* textContent :=
      readFileUtf8 fs (join newsDir (match group_textFile with
                                     | Some name => name
                                     | None => ""
                                     end)) in
    Ok (articles ++ [{| type := "article"; title := baseName;
                        description := trim textContent;
                        imagePath := None |}])
  else if present group_imageFile then
    Ok (articles ++ [{| type := "article"; title := baseName;
                        description := "";
                        imagePath := imageData |}])
  else Ok articles.

(** One turn of [for (const baseName in fileGroups)]. *)
Definition emit (fs : FileSystem) (h : heap)
    (articles : list Article) (baseName : string) : result (list Article) :=
  match property h baseName with
  | Undefined => Err "TypeError"
  | group =>
      article_of fs (get_field h group "textFile")
                 (get_field h group "imageFile") articles baseName
  end.

(** The body of the [try] block of ['get-news-articles']. *)
Definition news_articles (fs : FileSystem) : result (list Article) :=
  let* files := readdir fs newsDir in
  let h := group_files (properties (objectPrototype fs)) files in
  for_of (emit fs h) (for_in h) [].

(** The handler: the [catch] logs and answers with an empty array. *)
Definition get_news_articles (fs : FileSystem) : run (list Article) :=
  match news_articles fs with
  | Ok articles => {| outcome := Returns articles; console := [] |}
  | Err e =>
      {| outcome := Returns [];
         console := [("Error reading news articles:", e)] |}
  end.

(** One turn of [for (const file of files)] in ['get-announcements']. *)
Definition announce (fs : FileSystem) (announcements : list Announcement)
    (file : string) : result (list Announcement) :=
  let filePath := join announcementsDir file in
  if String.eqb (toLowerCase (extname file)) ".txt" then
    let* content := readFileUtf8 fs filePath in
    let trimmedContent := trim content in
    if (0 <? String.length trimmedContent)%nat
       && (String.length trimmedContent <=? 100)%nat
    then Ok (announcements ++ [{| content := trimmedContent |}])
    else Ok announcements
  else Ok announcements.

Definition announcements_of (fs : FileSystem) : result (list Announcement) :=
  let* files := readdir fs announcementsDir in
  for_of (announce fs) files [].

Definition get_announcements (fs : FileSystem) : run (list Announcement) :=
  match announcements_of fs with
  | Ok announcements =>
      {| outcome := Returns announcements; console := [] |}
  | Err e =>
      {| outcome := Returns [];
         console := [("Error reading announcements:", e)] |}
  end.

End Main.

(* ================================================================== *)
(** ** [Date]: from a time value to the date part of [toISOString] *)

Module JsDate.
Local Open Scope Z_scope.

Definition msPerDay : Z := 86400000.

(** [Day(t)]: the number of the UTC day that holds the time value [t]. *)
Definition Day (t : Z) : Z := t / msPerDay.

(** A [Date] holds a time value of at most 8.64e15 ms in magnitude;
    beyond that it is an invalid date and [toISOString] throws. *)
Definition valid_time (t : Z) : bool :=
  (-8640000000000000 <=? t) && (t <=? 8640000000000000).

(** Year, month and day of the month of a day number in the proleptic
    Gregorian calendar, by eras of 400 years that begin on a first of
    March. *)
Definition civil_of_doe (doe : Z) : Z * Z * Z :=
  let yoe := (doe - doe / 1460 + doe / 36524 - doe / 146096) / 365 in
  let doy := doe - (365 * yoe + yoe / 4 - yoe / 100) in
  let mp := (5 * doy + 2) / 153 in
  let d := doy - (153 * mp + 2) / 5 + 1 in
  let m := if mp <? 10 then mp + 3 else mp - 9 in
  (if m <=? 2 then yoe + 1 else yoe, m, d).

Definition civil_from_days (day : Z) : Z * Z * Z :=
  let z := day + 719468 in
  let era := z / 146097 in
  let doe := z mod 146097 in
  let '(y, m, d) := civil_of_doe doe in
  (y + era * 400, m, d).

Definition digit_char (n : Z) : ascii := ascii_of_N (48 + Z.to_N n).

(** [n] in [w] decimal digits, zero-padded. *)
Fixpoint pad (w : nat) (n : Z) : string :=
  match w with
  | O => ""
  | S w' => pad w' (n / 10) ++ String (digit_char (n mod 10)) ""
  end.

(** The year of an ISO date: four digits from 0 to 9999, otherwise a sign
    and six digits. *)
Definition iso_year (y : Z) : string :=
  if (0 <=? y) && (y <=? 9999) then pad 4 y
  else if y <? 0 then "-" ++ pad 6 (- y)
  else "+" ++ pad 6 y.

Definition iso_date (day : Z) : string :=
  let '(y, m, d) := civil_from_days day in
  iso_year y ++ "-" ++ pad 2 m ++ "-" ++ pad 2 d.

(** [new Date(t).toISOString().split('T')[0]]. *)
Definition toISODate (t : Z) : Runtime.result string :=
  if valid_time t then Runtime.Ok (iso_date (Day t))
  else Runtime.Err "RangeError: Invalid time value".

End JsDate.

(* ================================================================== *)
(** ** [Weather.js]: [processForecastData] *)

Module Weather.
Import JsString JsObject Runtime.
Local Open Scope js_scope.

(** The numbers a decoded JSON response can hold, and the two sentinels of
    the minimum and maximum search: finite values and the infinities.
    Temperatures are only compared, never computed with. *)
Inductive number : Type :=
| NegInfinity
| Finite (q : Q)
| Infinity.

Definition lt (a b : number) : bool :=
  match a, b with
  | NegInfinity, NegInfinity => false
  | NegInfinity, _ => true
  | Finite _, NegInfinity => false
  | Finite x, Finite y => negb (Qle_bool y x)
  | Finite _, Infinity => true
  | Infinity, _ => false
  end.

Definition gt (a b : number) : bool := lt b a.

(** An item of [data.list]: [item.dt], [item.main.temp] and
    [item.weather[0].main]. *)
Record ForecastSample : Type := {
  dt : Z;
  temp : number;
  main : string
}.

Record DayForecast : Type := {
  date : string;
  temp_min : number;
  temp_max : number;
  condition : option string     (* [None] is [null] *)
}.

Definition dateString_of (item : ForecastSample) : result string :=
  JsDate.toISODate (dt item * 1000).

(** The callback of [data.list.forEach]. *)
Definition group_item (groupedData : obj (list ForecastSample))
    (item : ForecastSample) : result (obj (list ForecastSample)) :=
  let* dateString := dateString_of item in
  let groupedData :=
    match get dateString groupedData with
    | Some _ => groupedData
    | None => set dateString [] groupedData
    end in
  match get dateString groupedData with
  | Some dayData => Ok (set dateString (dayData ++ [item]) groupedData)
  | None => Err "TypeError"
  end.

(** [Array.prototype.sort()] on strings: ascending by code units. *)
Fixpoint insert_sorted (x : string) (l : list string) : list string :=
  match l with
  | [] => [x]
  | y :: l' => if JsString.lt y x then y :: insert_sorted x l' else x :: l
  end.

Definition sort (l : list string) : list string :=
  fold_right insert_sorted [] l.

(** What [conditionCounts] holds under a key: a count, or [NaN]. *)
Inductive count : Type :=
| NaN
| Count (n : nat).

(** The three locals that the callback of [dayData.forEach] updates. *)
Record tally : Type := {
  minTemp : number;
  maxTemp : number;
  conditionCounts : obj count
}.

(** The callback of [dayData.forEach].  [conditionCounts[condition]] is
    truthy for a count other than 0, and for what a label that names a
    member of [Object.prototype] inherits before it has a count of its own.
    [++] then stores the number of the old value plus one: a function and
    [Object.prototype] convert to [NaN], which under the name of a function
    becomes an own property and under [__proto__] is handed to the setter
    and dropped.  [NaN] is falsy: the next sample with that label sets 1. *)
Definition tally_item (t : tally) (item : ForecastSample) : tally :=
  let minTemp := if lt (temp item) (minTemp t) then temp item else minTemp t in
  let maxTemp := if gt (temp item) (maxTemp t) then temp item else maxTemp t in
  let condition := main item in
  let conditionCounts :=
    match get condition (conditionCounts t) with
    | Some (Count n) =>
        if (n =? 0)%nat then set condition (Count 1) (conditionCounts t)
        else set condition (Count (S n)) (conditionCounts t)
    | Some NaN => set condition (Count 1) (conditionCounts t)
    | None =>
        match inherit condition with
        | Method => set condition NaN (conditionCounts t)
        | ObjectPrototype => conditionCounts t
        | Nothing => set condition (Count 1) (conditionCounts t)
        end
    end in
  {| minTemp := minTemp; maxTemp := maxTemp;
     conditionCounts := conditionCounts |}.

(** One turn of [for (const condition in conditionCounts)], on the pair
    [(mostCommonCondition, maxCount)].  [NaN > maxCount] is false. *)
Definition pick (conditionCounts : obj count) (best : option string * nat)
    (condition : string) : option string * nat :=
  match get condition conditionCounts with
  | Some (Count n) => if (snd best <? n)%nat then (Some condition, n) else best
  | Some NaN => best
  | None => best
  end.

Definition mostCommon (conditionCounts : obj count) : option string :=
  fst (fold_left (pick conditionCounts) (keys conditionCounts) (None, 0%nat)).

(** The callback of [dates.slice(0, 4).map], given the bucket. *)
Definition day_forecast (date : string) (dayData : list ForecastSample)
  : DayForecast :=
  let t := fold_left tally_item dayData
             {| minTemp := Infinity; maxTemp := NegInfinity;
                conditionCounts := empty |} in
  {| date := date; temp_min := minTemp t; temp_max := maxTemp t;
     condition := mostCommon (conditionCounts t) |}.

Definition daily (groupedData : obj (list ForecastSample))
    (dailyData : list DayForecast) (date : string)
  : result (list DayForecast) :=
  match get date groupedData with
  | Some dayData => Ok (dailyData ++ [day_forecast date dayData])
  | None => Err "TypeError"
  end.

(** [processForecastData(data)] on [items = data.list], run at the time
    value [now]. *)
Definition processForecastData (now : Z) (items : list ForecastSample)
  : result (list DayForecast) :=
  let* groupedData := for_of group_item items empty in
  let* todayDateString := JsDate.toISODate now in
  let dates :=
    sort (filter (fun date => JsString.ge date todayDateString)
                 (keys groupedData)) in
  for_of (daily groupedData) (firstn 4 dates) [].

End Weather.

(* ================================================================== *)
(** ** Numbers in template literals *)

Module JsNumber.

(** The text of an integer: its decimal digits, after a minus sign when it
    is negative. *)
Definition toString (n : Z) : string := NilZero.string_of_int (Z.to_int n).

End JsNumber.

(* ================================================================== *)
(** ** [Weather.js]: what the component derives for display *)

Module WeatherView.
Import JsString.
Local Open Scope Z_scope.

(** [getOrdinalSuffix(day)]. *)
Definition getOrdinalSuffix (day : Z) : string :=
  if (3 <? day) && (day <? 21) then "th"
  else match Z.rem day 10 with
       | 1 => "st"
       | 2 => "nd"
       | 3 => "rd"
       | _ => "th"
       end.

(** An item of [weather.hourly] and a point of the precipitation chart
    ([pop_text] is the [pop] of the point). *)
Record HourData : Type := { dt : Z; pop : Weather.number }.
Record HourPoint : Type := { time : string; pop_text : string; period : string }.

Section Chart.

(** [getHours] of the date of a time value, in the time zone of the kiosk,
    and the text of [(pop * 100).toFixed(0)]. *)
Variable getHours : Z -> Z.
Variable percent : Weather.number -> string.

(** The callback of [hourly.slice(0, 8).map]. *)
Definition hour_point (hourData : HourData) : HourPoint :=
  let hour := getHours (dt hourData * 1000) in
  let '(hour, period) :=
    if 12 <? hour then (hour - 12, "PM")
    else if hour =? 12 then (hour, "PM")
    else if hour <? 1 then (1, "AM")
    else (hour, "AM") in
  {| time := JsNumber.toString hour ++ " " ++ period;
     pop_text := percent (pop hourData);
     period := period |}.

Definition next8Hours (hourly : list HourData) : list HourPoint :=
  map hour_point (firstn 8 hourly).

End Chart.

(** The scenes, named as the component's comments name them. *)
Definition lightning : string :=
  "https://prod.spline.design/7lS05oiXnQySeZkS/scene.splinecode".
Definition drizzle : string :=
  "https://prod.spline.design/DdRBFtXUE86cx4jm/scene.splinecode".
Definition rain : string :=
  "https://prod.spline.design/AC2lpPCp12jHnalJ/scene.splinecode".
Definition snow : string :=
  "https://prod.spline.design/Dp9BU2YzDb3596Wa/scene.splinecode".
Definition clear : string :=
  "https://prod.spline.design/xkvpDnlvZzRdSQNn/scene.splinecode".
Definition few_clouds : string :=
  "https://prod.spline.design/JS3HK7e12qyvx4De/scene.splinecode".
Definition overcast : string :=
  "https://prod.spline.design/f4Qkqev0L-eCm-pA/scene.splinecode".
Definition moon : string :=
  "https://prod.spline.design/z8W5wcwZzUzjjLJi/scene.splinecode".

(** [splineScenes] by day and by night. *)
Definition day_scenes : list (Z * string) :=
  [(200, lightning); (201, lightning); (202, lightning); (210, lightning);
   (211, lightning); (212, lightning); (221, lightning); (230, lightning);
   (231, lightning); (232, lightning); (300, drizzle); (301, drizzle);
   (302, drizzle); (310, drizzle); (311, drizzle); (312, drizzle);
   (313, drizzle); (314, drizzle); (321, drizzle); (500, rain);
   (501, rain); (502, rain); (503, rain); (504, rain); (511, rain);
   (520, rain); (521, rain); (522, rain); (531, rain); (600, snow);
   (601, snow); (602, snow); (611, snow); (612, snow); (613, snow);
   (615, snow); (616, snow); (620, snow); (621, snow); (622, snow);
   (800, clear); (701, rain); (711, ""); (721, ""); (731, ""); (741, "");
   (751, ""); (761, ""); (762, ""); (771, ""); (781, "");
   (801, few_clouds); (802, few_clouds); (803, few_clouds); (804, overcast)].

Definition night_scenes : list (Z * string) :=
  [(200, lightning); (201, lightning); (202, lightning); (210, lightning);
   (211, lightning); (212, lightning); (221, lightning); (230, lightning);
   (231, lightning); (232, lightning); (300, drizzle); (301, drizzle);
   (302, drizzle); (310, drizzle); (311, drizzle); (312, drizzle);
   (313, drizzle); (314, drizzle); (321, drizzle); (500, rain);
   (501, rain); (502, rain); (503, rain); (504, rain); (511, rain);
   (520, rain); (521, rain); (522, rain); (531, rain); (600, snow);
   (601, snow); (602, snow); (611, snow); (612, snow); (613, snow);
   (615, snow); (616, snow); (620, snow); (621, snow); (622, snow);
   (800, moon); (701, rain); (711, ""); (721, ""); (731, ""); (741, "");
   (751, ""); (761, ""); (762, ""); (771, ""); (781, ""); (801, moon);
   (802, moon); (803, moon); (804, overcast)].

(** [splineScenes[weatherId]]. *)
Fixpoint scene_of (weatherId : Z) (splineScenes : list (Z * string))
  : option string :=
  match splineScenes with
  | [] => None
  | (id, url) :: rest =>
      if weatherId =? id then Some url else scene_of weatherId rest
  end.

(** [found || fallback]: a missing entry and an empty string are falsy. *)
Definition or_else (found : option string) (fallback : string) : string :=
  match found with
  | Some url => if truthy url then url else fallback
  | None => fallback
  end.

(** The scene for a weather condition code, given sunrise, sunset and the
    current time in seconds. *)
Definition splineSceneUrl (weatherId sunrise sunset utcTime : Z) : string :=
  if (sunrise <=? utcTime) && (utcTime <? sunset) then
    or_else (scene_of weatherId day_scenes) drizzle
  else if (utcTime <=? sunrise) && (sunset <=? utcTime) then
    or_else (scene_of weatherId night_scenes) overcast
  else overcast.

End WeatherView.

(* ================================================================== *)
(** ** [main.js]: the world news handler *)

Module WorldNews.
Import JsString Runtime.

(** An article of the news API, by the three fields that the handler
    reads; [None] is [null]. *)
Record article : Type := {
  title : option string;
  image : option string;
  description : option string
}.

(** The callback of [articles.filter]. *)
Definition keep (a : article) : bool :=
  match title a with Some t => truthy t | None => false end
  && match image a with
     | Some i => truthy i && prefix "http" i
     | None => false
     end
  && match description a with
     | Some d => truthy d && (String.length d <=? 400)%nat
     | None => false
     end.

(** ['fetch-news'], given how the request ended: rejected, or answered with
    [response.data.data] ([None] when the answer has no such array). *)
Definition fetch_news (response : result (option (list article)))
  : completion (list article) :=
  match response with
  | Ok (Some articles) => Returns (filter keep articles)
  | Ok None => Throws "TypeError"
  | Err e => Throws e
  end.

End WorldNews.

(* ================================================================== *)
(** ** The carousels of the components *)

Module Carousel.
Local Open Scope Z_scope.

(** The update of the current index by the rotation timer and by
    [handleNextArticle], for a list of [length] items. *)
Definition handleNextArticle (length prevIndex : Z) : Z :=
  if prevIndex =? length - 1 then 0 else prevIndex + 1.

(** The update by [handlePrevArticle]. *)
Definition handlePrevArticle (length prevIndex : Z) : Z :=
  if prevIndex =? 0 then length - 1 else prevIndex - 1.

(** The index after [ticks] periods of the rotation timer.  The effect
    that sets the timer does so only for a list that is not empty. *)
Fixpoint rotate (length : Z) (ticks : nat) (index : Z) : Z :=
  match ticks with
  | O => index
  | S ticks' =>
      if 0 <? length then rotate length ticks' (handleNextArticle length index)
      else index
  end.

(** [l.filter((x, index) => keep(index))], counting from [index]. *)
Fixpoint filter_index {A : Type} (keep : Z -> bool) (index : Z) (l : list A)
  : list A :=
  match l with
  | [] => []
  | x :: l' =>
      if keep index then x :: filter_index keep (index + 1) l'
      else filter_index keep (index + 1) l'
  end.

(** [handleImageError] of the world news, on the list and the index of
    the render in which the image failed: the new list and the new index. *)
Definition handleImageError {A : Type} (articles : list A)
    (currentArticleIndex : Z) : list A * Z :=
  (filter_index (fun index => negb (index =? currentArticleIndex)) 0 articles,
   if Z.of_nat (List.length articles) <=? 1 then 0
   else if Z.of_nat (List.length articles) - 1 <=? currentArticleIndex then 0
   else currentArticleIndex).

End Carousel.

(* ================================================================== *)
(** ** The news component: the layout of the current article *)

Module StybergNewsView.
Import JsString.

(** The three branches of the article display. *)
Inductive layout : Type :=
| ImageAndText
| OnlyImage
| OnlyText.

(** [currentArticle?.imagePath] and [currentArticle?.description] in a
    condition. *)
Definition hasImage (currentArticle : Main.Article) : bool :=
  match Main.imagePath currentArticle with
  | Some uri => truthy uri
  | None => false
  end.

Definition hasText (currentArticle : Main.Article) : bool :=
  truthy (Main.description currentArticle).

Definition layout_of (currentArticle : Main.Article) : layout :=
  if hasImage currentArticle && hasText currentArticle then ImageAndText
  else if hasImage currentArticle then OnlyImage
  else OnlyText.

End StybergNewsView.

(* ================================================================== *)
(** ** The vocabulary of the specification

    Notions that the properties below are stated with; none of them is used
    by the code above. *)

Module Spec.
Import JsString NodePath JsObject Runtime.

(** *** Listings *)

(** The distinct elements of [l], each at its first occurrence. *)
Fixpoint first_seen (l : list string) : list string :=
  match l with
  | [] => []
  | x :: l' => x :: filter (fun y => negb (String.eqb y x)) (first_seen l')
  end.

(** [a] comes before [b] in [l]. *)
Definition precedes (l : list string) (a b : string) : Prop :=
  exists l1 l2 l3, l = l1 ++ a :: l2 ++ b :: l3.

(** The last element of a listing that satisfies [p]. *)
Definition last_such (p : string -> bool) (files : list string)
  : option string :=
  find p (rev files).

(** The classes of files, by lower-cased extension. *)
Definition is_text (file : string) : bool :=
  String.eqb (Main.ext_of file) ".txt".
Definition is_image (file : string) : bool :=
  includes Main.image_extensions (Main.ext_of file).
Definition recognized (file : string) : bool := is_text file || is_image file.

(** The text file and the image file that stand for a stem: the last of
    each class in the listing. *)
Definition text_of (stem : string) (files : list string) : option string :=
  last_such (fun f => String.eqb (Main.baseName_of f) stem && is_text f) files.
Definition image_of (stem : string) (files : list string) : option string :=
  last_such (fun f => String.eqb (Main.baseName_of f) stem && is_image f) files.

(** A stem yields an article when a recognized file carries it. *)
Definition yields (files : list string) (stem : string) : bool :=
  existsb (fun f => String.eqb (Main.baseName_of f) stem && recognized f) files.


(** *** Stems that name a member of [Object.prototype] *)

(** A listing has a recognized file of stem [__proto__]: the scan assigns
    its name to a property of [Object.prototype]. *)
Definition pollutes (files : list string) : bool :=
  existsb (fun f => String.eqb (Main.baseName_of f) "__proto__"
                    && recognized f) files.


(** *** Failing scans *)

(** [Object.prototype] is as the engine made it, and the listing leaves
    it so. *)
Definition unpolluted (fs : FileSystem) (files : list string) : Prop :=
  objectPrototype fs = Pristine /\ pollutes files = false.


(** The listing of the announcements directory fails, or the read of one
    of its text files does. *)
Inductive announcements_scan_fails (fs : FileSystem) : Prop :=
| announcements_listing_fails (e : error) :
    readdir fs Main.announcementsDir = Err e -> announcements_scan_fails fs
| announcement_read_fails (files : list string) (file : string) (e : error) :
    readdir fs Main.announcementsDir = Ok files ->
    In file files ->
    is_text file = true ->
    readFileUtf8 fs (join Main.announcementsDir file) = Err e ->
    announcements_scan_fails fs.

(** *** Forecasts *)

(** The order of the numbers. *)
Definition le (a b : Weather.number) : Prop :=
  match a, b with
  | Weather.NegInfinity, _ => True
  | _, Weather.Infinity => True
  | Weather.Finite x, Weather.Finite y => (x <= y)%Q
  | _, _ => False
  end.

(** The UTC day of a sample and of the time of the call. *)
Definition utc_day (item : Weather.ForecastSample) : Z :=
  JsDate.Day (Weather.dt item * 1000).

(** The day bucket of a date string: the samples of that date, in input
    order. *)
Definition bucket (date : string) (items : list Weather.ForecastSample)
  : list Weather.ForecastSample :=
  filter (fun item =>
            match Weather.dateString_of item with
            | Ok s => String.eqb s date
            | Err _ => false
            end) items.

Definition labels (dayData : list Weather.ForecastSample) : list string :=
  map Weather.main dayData.

Definition occurrences (c : string) (l : list string) : nat :=
  count_occ string_dec l c.

(** The enumeration order of the keys of an object whose properties were
    created in the order [l]. *)
Definition enumeration_order (l : list string) : list string :=
  sort_indices (filter is_index l) ++ filter (fun k => negb (is_index k)) l.

(** The tie-break in the words of the specification: scanning the samples
    in order, the first label whose running count reaches the highest final
    count. *)
Definition max_count (l : list string) : nat :=
  fold_right (fun c m => Nat.max (occurrences c l) m) 0 l.

Fixpoint reach (target : nat) (seen rest : list string) : option string :=
  match rest with
  | [] => None
  | c :: rest' =>
      if Nat.eqb (occurrences c (seen ++ [c])) target then Some c
      else reach target (seen ++ [c]) rest'
  end.

Definition first_to_reach_max (l : list string) : option string :=
  reach (max_count l) [] l.

(** Time values whose UTC date has a year from 0000 to 9999, the dates
    that [toISOString] writes as [YYYY-MM-DD]. *)
Definition four_digit_year (t : Z) : Prop :=
  (-62167219200000 <= t <= 253402300799999)%Z.

End Spec.

(* ================================================================== *)
(** ** Sample file systems and forecasts *)

Module Examples.
Import Runtime.

(** The longest string of the 64-bit engine: [2^29 - 24] code units. *)
Definition max_string_length : N := 536870888.

(** A directory with the given entries, where every read succeeds, seen
    from a fresh process with version 1 of the [mime] package. *)
Definition listing_fs (files : list string) (text : string)
    (bytes : list byte) : FileSystem :=
  {| readdir := fun _ => Ok files;
     readFile := fun _ => Ok bytes;
     readFileUtf8 := fun _ => Ok text;
     lookup := fun name => Ok (mime_lookup name);
     MAX_STRING_LENGTH := max_string_length;
     objectPrototype := Pristine |}.

(** The share is unreachable. *)
Definition offline_fs : FileSystem :=
  {| readdir := fun _ => Err "ENOENT";
     readFile := fun _ => Err "ENOENT";
     readFileUtf8 := fun _ => Err "ENOENT";
     lookup := fun name => Ok (mime_lookup name);
     MAX_STRING_LENGTH := max_string_length;
     objectPrototype := Pristine |}.




(** A news directory with one picture, its extension in capitals. *)
Definition capital_extension : list string := ["photo.JPG"].

(** A news directory with a story and its picture, the extension of the
    text in capitals. *)
Definition capital_text : list string := ["a.TXT"; "a.jpg"].

(** A news directory with a text of stem [__proto__] and a picture. *)
Definition prototype_text : list string := ["__proto__.txt"; "b.png"].

(** A news directory with an illustrated story, a picture alone and a
    text alone, and a file that is neither. *)
Definition newsroom : list string :=
  ["a.txt"; "b.png"; "notes.doc"; "a.jpg"; "c.txt"].

Definition newsroom_fs : FileSystem :=
  listing_fs newsroom "  hello  " [x4d; x61; x6e].

Definition hundred : string :=
  "0123456789012345678901234567890123456789012345678901234567890123456789012345678901234567890123456789".

(** An announcements directory: a short notice, a blank file, an image, a
    notice of 101 characters and one of exactly 100. *)
Definition notices : list string :=
  ["lunch.txt"; "blank.txt"; "logo.png"; "long.txt"; "FULL.TXT"].

Definition notice_text (file : string) : string :=
  if String.eqb file "lunch.txt" then "  Lunch at noon
"
  else if String.eqb file "blank.txt" then "   "
  else if String.eqb file "long.txt" then hundred ++ "!"
  else if String.eqb file "FULL.TXT" then " " ++ hundred ++ " "
  else "binary".

Definition notices_fs : FileSystem :=
  {| readdir := fun _ => Ok notices;
     readFile := fun _ => Ok [];
     readFileUtf8 := fun path =>
       Ok (notice_text
             (substring (String.length (join Main.announcementsDir ""))
                        (String.length path) path));
     lookup := fun name => Ok (mime_lookup name);
     MAX_STRING_LENGTH := max_string_length;
     objectPrototype := Pristine |}.

(** Forecasts.  The call is made on 2025-11-03 at 00:00 UTC; the samples
    are given by their offset in hours from that time. *)
Definition midnight : Z := 1762128000.

Definition sample (hours : Z) (degrees : Z) (label : string)
  : Weather.ForecastSample :=
  {| Weather.dt := midnight + hours * 3600;
     Weather.temp := Weather.Finite (inject_Z degrees);
     Weather.main := label |}.

(** A day on which two conditions are met twice each: the second one is
    the first to have been met twice. *)
Definition tied_day : list Weather.ForecastSample :=
  [sample 9 50 "Clear"; sample 12 51 "Rain"; sample 15 49 "Rain";
   sample 18 52 "Clear"].

(** Rain, clear sky, rain. *)
Definition rainy_day : list Weather.ForecastSample :=
  [sample 9 50 "Rain"; sample 12 51 "Clear"; sample 15 49 "Rain"].

(** A day with one sample, labelled with the name of a member of
    [Object.prototype]. *)
Definition constructor_day : list Weather.ForecastSample :=
  [sample 9 50 "constructor"].

(** Today, tomorrow and the day after, two samples each. *)
Definition three_days : list Weather.ForecastSample :=
  [sample 9 70 "Clear"; sample 12 80 "Clear";
   sample 33 60 "Rain"; sample 36 65 "Clouds";
   sample 57 90 "Clear"; sample 60 95 "Clear"].

(** One sample on 10000-01-01, the first day whose year takes more than
    four digits. *)
Definition year_10000 : list Weather.ForecastSample :=
  [sample 69900048 70 "Clear"].

End Examples.

(* ================================================================== *)
(** ** Auxiliary notions of the proofs *)

Module Aux.
Import JsString NodePath JsObject Runtime Spec.

(** *** Objects *)

(** The creation order after an assignment to key [k]. *)
Definition add_key (acc : list string) (k : string) : list string :=
  if existsb (String.eqb k) acc then acc else acc ++ [k].

(** *** The news handler *)
Section News.
Import Main.

(** The group of a stem once [file] has been met. *)
Definition record_file (g : group) (file : string) : group :=
  if is_text file then {| textFile := Some file; imageFile := imageFile g |}
  else if is_image file then {| textFile := textFile g; imageFile := Some file |}
  else g.

Definition has_file (G : obj group) (k : string) : bool :=
  match get k G with
  | Some g => present (textFile g) || present (imageFile g)
  | None => false
  end.

(** A turn of the first loop as it goes on own properties alone. *)
Definition own_group_file (fileGroups : obj group) (file : string)
  : obj group :=
  let ext := ext_of file in
  let baseName := baseName_of file in
  let fileGroups :=
    match get baseName fileGroups with
    | Some _ => fileGroups
    | None => set baseName empty_group fileGroups
    end in
  match get baseName fileGroups with
  | None => fileGroups
  | Some g =>
      if String.eqb ext ".txt" then
        set baseName {| textFile := Some file; imageFile := imageFile g |}
            fileGroups
      else if includes image_extensions ext then
        set baseName {| textFile := textFile g; imageFile := Some file |}
            fileGroups
      else fileGroups
  end.

Definition own_group_files (files : list string) : obj group :=
  fold_left own_group_file files empty.

(** The entries whose stem names no member of [Object.prototype]. *)
Definition unnamed (files : list string) : list string :=
  filter (fun f => negb (names_member (baseName_of f))) files.

(** The objects of a scan that has left [Object.prototype] as it was, and
    has made no group under the name of one of its members. *)
Definition clean (h : heap) : Prop :=
  prototype h = [] /\
  forall k, names_member k = true -> get k (fileGroups h) = None.

(** A file whose name the scan assigns to a property of
    [Object.prototype]. *)
Definition polluting (file : string) : bool :=
  String.eqb (baseName_of file) "__proto__" && recognized file.

(** No group is held under the name of a member of [Object.prototype],
    and the scan adds to [Object.prototype] no other property than
    [textFile] and [imageFile]. *)
Definition unnamed_keys (h : heap) : Prop :=
  (forall k, names_member k = true -> get k (fileGroups h) = None) /\
  (forall k, In k (created (prototype h)) ->
             k = "textFile" \/ k = "imageFile").

(** No key is created twice. *)
Definition distinct_keys (h : heap) : Prop :=
  NoDup (created (fileGroups h)) /\ NoDup (created (prototype h)).

(** The data URI of an image that was read and encoded. *)
Definition shows (fs : FileSystem) (name : string) (uri : string) : Prop :=
  exists bytes mimeType,
    readFile fs (join newsDir name) = Ok bytes /\
    mimeType_of fs name = Ok mimeType /\
    uri = data_uri mimeType (base64 bytes).

Definition well_named (g : group) : Prop :=
  (forall t, textFile g = Some t -> truthy t = true) /\
  (forall i, imageFile g = Some i -> truthy i = true).

(** The article of a group: its description is the trimmed text, its
    image the data URI of the image bytes. *)
Definition describes (fs : FileSystem) (g : group) (a : Article) : Prop :=
  type a = "article" /\
  match textFile g with
  | Some t => exists text, readFileUtf8 fs (join newsDir t) = Ok text
                           /\ description a = trim text
  | None => description a = ""
  end /\
  match imageFile g with
  | Some i => exists uri, shows fs i uri /\ imagePath a = Some uri
  | None => imagePath a = None
  end.

End News.

(** *** The forecast bucketer *)
Section Forecast.
Import Weather.

(** The array held under a date, and the samples of a date. *)
Definition held (G : obj (list ForecastSample)) (k : string)
  : list ForecastSample :=
  match get k G with Some l => l | None => [] end.

Definition dated (date : string) (item : ForecastSample) : bool :=
  match dateString_of item with
  | Ok s => String.eqb s date
  | Err _ => false
  end.

(** The date key of a sample that has one. *)
Definition date_key (item : ForecastSample) : string :=
  match dateString_of item with Ok d => d | Err _ => "" end.

(** The dates that [processForecastData] maps over. *)
Definition selected (G : obj (list ForecastSample)) (today : string)
  : list string :=
  firstn 4 (sort (filter (fun date => JsString.ge date today) (keys G))).

(** The locals before the first sample of a day. *)
Definition start : tally :=
  {| minTemp := Infinity; maxTemp := NegInfinity; conditionCounts := empty |}.

End Forecast.

(** *** Calendar arithmetic *)
Section Calendar.
Local Open Scope Z_scope.

(** The parts of [civil_of_doe]. *)
Definition yoe_of (doe : Z) : Z :=
  (doe - doe / 1460 + doe / 36524 - doe / 146096) / 365.
Definition doy_of (doe : Z) : Z :=
  doe - (365 * yoe_of doe + yoe_of doe / 4 - yoe_of doe / 100).
Definition mp_of (doy : Z) : Z := (5 * doy + 2) / 153.
Definition dom_of (doy : Z) : Z := doy - (153 * mp_of doy + 2) / 5 + 1.
Definition month_of (mp : Z) : Z := if mp <? 10 then mp + 3 else mp - 9.

(** Dates as numbers that grow with the calendar: [yyyymmdd], within a year
    that begins in March, within an era, and for any day. *)
Definition md_code (doy : Z) : Z :=
  (if month_of (mp_of doy) <=? 2 then 10000 else 0)
  + month_of (mp_of doy) * 100 + dom_of doy.
Definition doe_code (doe : Z) : Z := yoe_of doe * 10000 + md_code (doy_of doe).
Definition date_code (day : Z) : Z :=
  let '(y, m, d) := JsDate.civil_from_days day in y * 10000 + m * 100 + d.

(** The days from 0000-01-01 to 9999-12-31. *)
Definition in_range (day : Z) : Prop := -719528 <= day <= 2932896.

(** Insertion sort on day numbers, turn for turn like [Weather.sort]. *)
Fixpoint insert_day (x : Z) (l : list Z) : list Z :=
  match l with
  | [] => [x]
  | y :: l' => if y <? x then y :: insert_day x l' else x :: l
  end.

Definition sort_days (l : list Z) : list Z := fold_right insert_day [] l.

End Calendar.

End Aux.

(* ================================================================== *)
(** ** Notions and samples for the further properties *)

Module Notions.

(** A string that does not begin with white space. *)
Definition starts_black (s : string) : Prop :=
  match s with
  | EmptyString => True
  | String c _ => JsString.is_white c = false
  end.

(** A world news article that can be shown: a title, the address of an
    image over http, and a description of 1 to 400 characters. *)
Definition publishable (a : WorldNews.article) : Prop :=
  exists t i d,
    WorldNews.title a = Some t /\ t <> "" /\
    WorldNews.image a = Some i /\ prefix "http" i = true /\
    WorldNews.description a = Some d /\ 1 <= String.length d <= 400.

(** A number that is not one of the infinities. *)
Definition finite (a : Weather.number) : Prop :=
  match a with Weather.Finite _ => True | _ => False end.

(** What [toISOString] throws for an invalid date. *)
Definition range_error : Runtime.error := "RangeError: Invalid time value".

(** The hour of the day of a time value in UTC, a possible [getHours]. *)
Definition utc_hours (t : Z) : Z := ((t / 3600000) mod 24)%Z.

(** Three hours of a forecast, from 23:00 on 2025-11-02. *)
Definition late_hours : list WeatherView.HourData :=
  [ {| WeatherView.dt := 1762124400; WeatherView.pop := Weather.Finite 0 |};
    {| WeatherView.dt := 1762128000; WeatherView.pop := Weather.Finite 0 |};
    {| WeatherView.dt := 1762131600; WeatherView.pop := Weather.Finite 1 |} ].

End Notions.

(* ================================================================== *)
(** ** Facts about objects and loops *)

Module ObjectFacts.
Import JsObject Spec Aux.

Section Get.
Context {V : Type}.
Implicit Types (o : obj V) (k : string) (v : V).

Lemma get_set_same o k v : get k (set k v o) = Some v.
Proof.
  induction o as [|[k' v'] o IH]; simpl.
  - now rewrite String.eqb_refl.
  - destruct (String.eqb k k') eqn:E; simpl; rewrite E; auto.
Qed.

Lemma get_set_other o k k' v : k' <> k -> get k' (set k v o) = get k' o.
Proof.
  intros Hne. induction o as [|[k0 v0] o IH]; simpl.
  - apply String.eqb_neq in Hne. now rewrite Hne.
  - destruct (String.eqb k k0) eqn:E; simpl.
    + apply String.eqb_eq in E. subst k0.
      destruct (String.eqb_spec k' k); congruence.
    + now rewrite IH.
Qed.

Lemma get_none_iff o k : get k o = None <-> ~ In k (created o).
Proof.
  induction o as [|[k' v'] o IH]; simpl.
  - tauto.
  - destruct (String.eqb_spec k k') as [->|Hne].
    + split; [discriminate | intros H; exfalso; apply H; now left].
    + rewrite IH. split; intros H; [intros [E|E]; [congruence | tauto] | tauto].
Qed.

Lemma get_some_in o k v : get k o = Some v -> In k (created o).
Proof.
  intros H. destruct (in_dec string_dec k (created o)) as [Hin|Hout]; auto.
  apply get_none_iff in Hout. congruence.
Qed.

Lemma in_created_get o k : In k (created o) -> exists v, get k o = Some v.
Proof.
  intros H. destruct (get k o) eqn:E; eauto.
  apply get_none_iff in E. contradiction.
Qed.

(** Assignment creates a key only when it is new, and then last. *)
Lemma created_set o k v :
  created (set k v o) =
  match get k o with Some _ => created o | None => created o ++ [k] end.
Proof.
  induction o as [|[k' v'] o IH]; simpl; auto.
  destruct (String.eqb k k') eqn:E; simpl; auto.
  rewrite IH. now destruct (get k o).
Qed.

End Get.

(** *** Creation order and first occurrences *)

Lemma existsb_eqb_in k l : existsb (String.eqb k) l = true <-> In k l.
Proof.
  rewrite existsb_exists. split.
  - intros (x & Hx & E). apply String.eqb_eq in E. now subst.
  - intros H. exists k. split; auto. apply String.eqb_refl.
Qed.

Lemma existsb_eqb_out k l : existsb (String.eqb k) l = false <-> ~ In k l.
Proof.
  rewrite <- existsb_eqb_in. now destruct (existsb (String.eqb k) l).
Qed.

Lemma created_set_add_key {V} (o : obj V) k v :
  created (set k v o) = add_key (created o) k.
Proof.
  rewrite created_set. unfold add_key.
  destruct (get k o) eqn:E.
  - apply get_some_in in E. apply existsb_eqb_in in E. now rewrite E.
  - apply get_none_iff in E. apply existsb_eqb_out in E. now rewrite E.
Qed.

Lemma add_key_again l k : add_key (add_key l k) k = add_key l k.
Proof.
  unfold add_key. destruct (existsb (String.eqb k) l) eqn:E.
  - now rewrite E.
  - rewrite existsb_app. simpl. now rewrite String.eqb_refl, orb_true_r.
Qed.

Lemma filter_twice {A} (p q : A -> bool) l :
  filter p (filter q l) = filter (fun x => q x && p x) l.
Proof.
  induction l as [|x l IH]; simpl; auto.
  destruct (q x); simpl; [destruct (p x); now rewrite IH | exact IH].
Qed.

Lemma filter_swap {A} (p q : A -> bool) l :
  filter p (filter q l) = filter q (filter p l).
Proof. rewrite !filter_twice. apply filter_ext. intros a. apply andb_comm. Qed.

Lemma fold_add_key (l acc : list string) :
  fold_left add_key l acc =
  acc ++ filter (fun k => negb (existsb (String.eqb k) acc)) (first_seen l).
Proof.
  revert acc. induction l as [|x l IH]; intros acc; simpl.
  - now rewrite app_nil_r.
  - rewrite IH. unfold add_key.
    destruct (existsb (String.eqb x) acc) eqn:E; simpl.
    + f_equal. rewrite filter_twice. apply filter_ext. intros a.
      destruct (String.eqb_spec a x) as [->|Hne]; simpl.
      * now rewrite E.
      * reflexivity.
    + rewrite <- app_assoc. simpl. do 2 f_equal.
      rewrite filter_twice. apply filter_ext. intros a.
      rewrite existsb_app. simpl. rewrite orb_false_r.
      rewrite negb_orb. apply andb_comm.
Qed.

Lemma fold_add_key_nil l : fold_left add_key l [] = first_seen l.
Proof.
  rewrite fold_add_key. simpl.
  induction (first_seen l); simpl; congruence.
Qed.

Lemma first_seen_in l k : In k (first_seen l) <-> In k l.
Proof.
  induction l as [|x l IH]; simpl; [tauto|].
  rewrite filter_In, IH. destruct (String.eqb_spec k x) as [->|Hne]; simpl.
  - tauto.
  - split; [intros [E|[H _]]; [now left | now right]
           | intros [E|H]; [now left | right; now split]].
Qed.

Lemma first_seen_nodup l : NoDup (first_seen l).
Proof.
  induction l as [|x l IH]; simpl; constructor.
  - rewrite filter_In. intros [_ H]. now rewrite String.eqb_refl in H.
  - now apply NoDup_filter.
Qed.

(** *** Enumeration order *)

Lemma insert_index_perm k l : Permutation (insert_index k l) (k :: l).
Proof.
  induction l as [|x l IH]; simpl; auto.
  destruct (index_value k <=? index_value x)%N; auto.
  rewrite IH. apply perm_swap.
Qed.

Lemma sort_indices_perm l : Permutation (sort_indices l) l.
Proof.
  induction l as [|x l IH]; simpl; auto.
  rewrite insert_index_perm. now constructor.
Qed.

Lemma partition_perm {A} (p : A -> bool) l :
  Permutation (filter p l ++ filter (fun x => negb (p x)) l) l.
Proof.
  induction l as [|x l IH]; simpl; auto.
  destruct (p x); simpl.
  - now constructor.
  - rewrite <- Permutation_middle. now constructor.
Qed.

Lemma enumeration_order_perm l : Permutation (enumeration_order l) l.
Proof.
  unfold enumeration_order. rewrite sort_indices_perm. apply partition_perm.
Qed.

Lemma keys_enumeration {V} (o : obj V) :
  keys o = enumeration_order (created o).
Proof. reflexivity. Qed.

Lemma keys_in {V} (o : obj V) k : In k (keys o) <-> In k (created o).
Proof.
  rewrite keys_enumeration. split; apply Permutation_in;
    [| symmetry]; apply enumeration_order_perm.
Qed.

Lemma enumeration_order_nodup l : NoDup l -> NoDup (enumeration_order l).
Proof.
  intros H. eapply Permutation_NoDup; [symmetry; apply enumeration_order_perm | exact H].
Qed.

(** With no array index among the keys, enumeration is creation order. *)
Lemma enumeration_order_plain l :
  (forall k, In k l -> is_index k = false) -> enumeration_order l = l.
Proof.
  intros H. unfold enumeration_order.
  replace (filter is_index l) with (@nil string).
  - simpl. induction l as [|x l IH]; simpl; auto.
    rewrite (H x (or_introl eq_refl)). simpl. f_equal. apply IH.
    intros k Hk. apply H. now right.
  - symmetry. induction l as [|x l IH]; simpl; auto.
    rewrite (H x (or_introl eq_refl)). apply IH.
    intros k Hk. apply H. now right.
Qed.



End ObjectFacts.

Module LoopFacts.
Import Runtime.

Lemma for_of_cons {A S} (f : S -> A -> result S) x l s s' :
  for_of f (x :: l) s = Ok s' <->
  exists s1, f s x = Ok s1 /\ for_of f l s1 = Ok s'.
Proof.
  simpl. destruct (f s x) as [s1|e]; simpl.
  - split; [eauto | now intros (s2 & [= ->] & H)].
  - split; [discriminate | now intros (s2 & [=] & _)].
Qed.


End LoopFacts.

(* ================================================================== *)
(** ** The news handler, loop by loop *)

Module NewsFacts.
Import JsString NodePath JsObject Runtime Main Spec Aux ObjectFacts LoopFacts.

(** *** Extensions and names *)

Lemma toLowerCase_length s : String.length (toLowerCase s) = String.length s.
Proof. induction s; simpl; auto. Qed.

Lemma is_text_named file : is_text file = true -> truthy file = true.
Proof. destruct file; [discriminate | reflexivity]. Qed.

Lemma is_image_named file : is_image file = true -> truthy file = true.
Proof. destruct file; [discriminate | reflexivity]. Qed.

Lemma text_not_image file : is_text file = true -> is_image file = false.
Proof.
  unfold is_text, is_image. intros H. apply String.eqb_eq in H.
  now rewrite H.
Qed.

(** *** A stem is a name without its extension, when the extension is
        written in lower case *)

Lemma length_append a b :
  String.length (a ++ b)%string = String.length a + String.length b.
Proof. induction a; simpl; auto. Qed.

Lemma substring_whole a : substring 0 (String.length a) a = a.
Proof. induction a; simpl; congruence. Qed.

Lemma substring_head a b : substring 0 (String.length a) (a ++ b)%string = a.
Proof.
  induction a as [|c a IH]; simpl.
  - now destruct b.
  - now rewrite IH.
Qed.

Lemma substring_tail a b :
  substring (String.length a) (String.length b) (a ++ b)%string = b.
Proof. induction a as [|c a IH]; simpl; auto. apply substring_whole. Qed.

Lemma strip_suffix_append a b : strip_suffix (a ++ b)%string b = Some a.
Proof.
  unfold strip_suffix. rewrite length_append.
  replace (String.length a + String.length b - String.length b)
    with (String.length a) by lia.
  rewrite substring_tail, substring_head, String.eqb_refl.
  replace (String.length b <=? String.length a + String.length b)%nat
    with true; auto.
  symmetry. apply Nat.leb_le. lia.
Qed.

Lemma from_last_dot_suffix s e :
  from_last_dot s = Some e -> exists p, s = (p ++ e)%string.
Proof.
  revert e. induction s as [|c s IH]; intros e; simpl; [discriminate|].
  destruct (from_last_dot s) as [e'|].
  - intros [= <-]. destruct (IH e' eq_refl) as [p ->].
    now exists (String c p).
  - destruct (Ascii.eqb c "."); [|discriminate].
    intros [= <-]. now exists "".
Qed.

Lemma extname_suffix name :
  extname name <> "" ->
  exists stem, stem <> "" /\ name = (stem ++ extname name)%string.
Proof.
  unfold extname. destruct name as [|c rest]; [congruence|].
  destruct (from_last_dot rest) as [e|] eqn:E; [|congruence].
  destruct (String.eqb (String c rest) ".."); [congruence|].
  intros _. destruct (from_last_dot_suffix _ _ E) as [p ->].
  exists (String c p). split; [discriminate | reflexivity].
Qed.

(** With the extension in lower case, [baseName] is the name without it. *)
Lemma baseName_strips_lower_case_extension file :
  extname file <> "" ->
  toLowerCase (extname file) = extname file ->
  baseName_of file <> "" /\ (baseName_of file ++ extname file)%string = file.
Proof.
  intros Hext Hlow.
  destruct (extname_suffix file Hext) as (stem & Hstem & Hname).
  unfold baseName_of, ext_of, basename. rewrite Hlow.
  remember (extname file) as e eqn:He. clear He Hlow. subst file.
  rewrite strip_suffix_append, length_append.
  destruct (String.eqb_spec e "") as [|_]; [contradiction|].
  replace (String.length e <=? String.length stem + String.length e)%nat
    with true by (symmetry; apply Nat.leb_le; lia).
  simpl. destruct (String.eqb_spec e (stem ++ e)%string) as [E|_]; [|now split].
  exfalso. apply (f_equal String.length) in E. rewrite length_append in E.
  destruct stem; [congruence | simpl in E; lia].
Qed.

(** With a capital in the extension, [baseName] is the whole name. *)
Lemma baseName_keeps_capital_extension file :
  toLowerCase (extname file) <> extname file ->
  baseName_of file = file.
Proof.
  intros Hcase.
  assert (Hext : extname file <> "") by (intros E; rewrite E in Hcase; now apply Hcase).
  destruct (extname_suffix file Hext) as (stem & Hstem & Hname).
  unfold baseName_of, ext_of, basename.
  pose proof (toLowerCase_length (extname file)) as Hlen.
  remember (extname file) as e eqn:He.
  remember (toLowerCase e) as e' eqn:He'. clear He He'. subst file.
  destruct (negb (String.eqb e' "")
            && (String.length e' <=? String.length (stem ++ e)%string)%nat);
    [|reflexivity].
  destruct (String.eqb_spec e' (stem ++ e)%string) as [E|_].
  - exfalso. apply (f_equal String.length) in E. rewrite length_append in E.
    destruct stem; [congruence | simpl in E; lia].
  - unfold strip_suffix. rewrite length_append, Hlen.
    replace (String.length stem + String.length e - String.length e)
      with (String.length stem) by lia.
    rewrite substring_tail.
    destruct (String.eqb_spec e e') as [E|_]; [congruence | reflexivity].
Qed.

(** *** The first loop on own properties *)

Lemma get_group_file (o : obj group) file s :
  get s (own_group_file o file) =
  if String.eqb (baseName_of file) s
  then Some (record_file (match get s o with
                          | Some g => g
                          | None => empty_group
                          end) file)
  else get s o.
Proof.
  unfold own_group_file, record_file, is_text, is_image.
  destruct (String.eqb_spec (baseName_of file) s) as [<-|Hne].
  - destruct (get (baseName_of file) o) as [g|] eqn:Hg.
    + rewrite Hg.
      destruct (String.eqb (ext_of file) ".txt");
        [|destruct (includes image_extensions (ext_of file))];
        rewrite ?get_set_same; auto.
      all: now destruct g.
    + rewrite get_set_same.
      destruct (String.eqb (ext_of file) ".txt");
        [|destruct (includes image_extensions (ext_of file))];
        rewrite ?get_set_same; auto.
  - assert (Hs : s <> baseName_of file) by congruence.
    destruct (get (baseName_of file) o) as [g|] eqn:Hg.
    + rewrite Hg.
      destruct (String.eqb (ext_of file) ".txt");
        [|destruct (includes image_extensions (ext_of file))];
        rewrite ?get_set_other; auto.
    + rewrite get_set_same.
      destruct (String.eqb (ext_of file) ".txt");
        [|destruct (includes image_extensions (ext_of file))];
        rewrite ?get_set_other; auto.
Qed.

Lemma created_group_file (o : obj group) file :
  created (own_group_file o file) = add_key (created o) (baseName_of file).
Proof.
  unfold own_group_file.
  destruct (get (baseName_of file) o) as [g|] eqn:Hg.
  - rewrite Hg.
    assert (E : add_key (created o) (baseName_of file) = created o).
    { unfold add_key. apply get_some_in in Hg. apply existsb_eqb_in in Hg.
      now rewrite Hg. }
    destruct (String.eqb (ext_of file) ".txt");
      [|destruct (includes image_extensions (ext_of file))];
      rewrite ?created_set, ?Hg; auto.
  - rewrite get_set_same.
    destruct (String.eqb (ext_of file) ".txt");
      [|destruct (includes image_extensions (ext_of file))];
      rewrite ?created_set_add_key, ?add_key_again; auto.
Qed.

Lemma created_fold_group_file files (o : obj group) :
  created (fold_left own_group_file files o) =
  fold_left add_key (map baseName_of files) (created o).
Proof.
  revert o. induction files as [|f files IH]; intros o; simpl; auto.
  now rewrite IH, created_group_file.
Qed.

(** The keys are created in the order in which the stems are first met. *)
Lemma created_group_files files :
  created (own_group_files files) = first_seen (map baseName_of files).
Proof.
  unfold own_group_files. rewrite created_fold_group_file, fold_add_key.
  simpl. induction (first_seen (map baseName_of files)); simpl; congruence.
Qed.

Lemma last_such_snoc p l x :
  last_such p (l ++ [x]) = if p x then Some x else last_such p l.
Proof. unfold last_such. now rewrite rev_app_distr. Qed.

Lemma last_such_none p l : last_such p l = None <-> existsb p l = false.
Proof.
  induction l as [|x l IH] using rev_ind.
  - simpl. unfold last_such. simpl. tauto.
  - rewrite last_such_snoc, existsb_app. simpl. rewrite orb_false_r.
    destruct (p x).
    + rewrite orb_true_r. split; discriminate.
    + now rewrite orb_false_r.
Qed.

Lemma last_such_some p l x : last_such p l = Some x -> In x l /\ p x = true.
Proof.
  unfold last_such. intros H. apply find_some in H.
  now rewrite <- in_rev in H.
Qed.

Lemma last_such_absent s (p : string -> bool) files :
  existsb (fun f => String.eqb (baseName_of f) s) files = false ->
  last_such (fun f => String.eqb (baseName_of f) s && p f) files = None.
Proof.
  intros H. apply last_such_none. apply not_true_is_false. intros H'.
  apply existsb_exists in H'. destruct H' as (f & Hf & Hp).
  apply andb_true_iff in Hp.
  assert (existsb (fun f => String.eqb (baseName_of f) s) files = true)
    by (apply existsb_exists; exists f; tauto).
  congruence.
Qed.

(** Each stem holds the last text file and the last image file met. *)
Lemma get_group_files files s :
  get s (own_group_files files) =
  if existsb (fun f => String.eqb (baseName_of f) s) files
  then Some {| textFile := text_of s files; imageFile := image_of s files |}
  else None.
Proof.
  unfold own_group_files, text_of, image_of.
  induction files as [|x files IH] using rev_ind; [reflexivity|].
  rewrite fold_left_app. simpl. rewrite get_group_file, IH.
  rewrite existsb_app, !last_such_snoc. simpl. rewrite orb_false_r.
  destruct (String.eqb (baseName_of x) s) eqn:E; simpl.
  - rewrite orb_true_r. unfold record_file.
    destruct (existsb (fun f => String.eqb (baseName_of f) s) files) eqn:Ex.
    + destruct (is_text x) eqn:Ht; [now rewrite (text_not_image _ Ht)|].
      now destruct (is_image x).
    + rewrite (last_such_absent _ is_text _ Ex),
              (last_such_absent _ is_image _ Ex).
      destruct (is_text x) eqn:Ht; [now rewrite (text_not_image _ Ht)|].
      now destruct (is_image x).
  - now rewrite orb_false_r.
Qed.

Lemma group_files_well_named files k g :
  get k (own_group_files files) = Some g -> well_named g.
Proof.
  rewrite get_group_files. destruct (existsb _ files); [|discriminate].
  intros [= <-]. split; simpl; intros x Hx;
    apply last_such_some in Hx; destruct Hx as [_ Hx];
    apply andb_true_iff in Hx; destruct Hx as [_ Hx].
  - now apply is_text_named.
  - now apply is_image_named.
Qed.

Lemma present_some o :
  (forall x, o = Some x -> truthy x = true) ->
  present o = match o with Some _ => true | None => false end.
Proof. destruct o; simpl; auto. Qed.

(** A stem has a file exactly when a recognized file carries it. *)
Lemma has_file_yields files k :
  has_file (own_group_files files) k = yields files k.
Proof.
  unfold has_file. destruct (get k (own_group_files files)) as [g|] eqn:Hg.
  - destruct (group_files_well_named _ _ _ Hg) as [Ht Hi].
    rewrite (present_some _ Ht), (present_some _ Hi).
    rewrite get_group_files in Hg.
    destruct (existsb _ files); [|discriminate]. injection Hg as <-. simpl.
    unfold yields, recognized.
    destruct (text_of k files) eqn:Et.
    + apply last_such_some in Et. destruct Et as [Hin Hp]. simpl.
      symmetry. apply existsb_exists. exists s. split; auto.
      apply andb_true_iff in Hp. destruct Hp as [-> ->]. reflexivity.
    + destruct (image_of k files) eqn:Ei; simpl.
      * apply last_such_some in Ei. destruct Ei as [Hin Hp].
        symmetry. apply existsb_exists. exists s. split; auto.
        apply andb_true_iff in Hp. destruct Hp as [-> ->].
        now rewrite orb_true_r.
      * apply last_such_none in Et, Ei. symmetry.
        apply not_true_is_false. intros H. apply existsb_exists in H.
        destruct H as (f & Hf & Hp).
        apply andb_true_iff in Hp. destruct Hp as [Hs Hr].
        apply orb_true_iff in Hr. destruct Hr as [Hr|Hr].
        -- assert (existsb (fun f => String.eqb (baseName_of f) k && is_text f) files = true)
             by (apply existsb_exists; exists f; now rewrite Hs, Hr).
           congruence.
        -- assert (existsb (fun f => String.eqb (baseName_of f) k && is_image f) files = true)
             by (apply existsb_exists; exists f; now rewrite Hs, Hr).
           congruence.
  - rewrite get_group_files in Hg. symmetry.
    destruct (existsb (fun f => String.eqb (baseName_of f) k) files) eqn:E;
      [discriminate|].
    apply not_true_is_false. intros H. apply existsb_exists in H.
    destruct H as (f & Hf & Hp). apply andb_true_iff in Hp.
    assert (existsb (fun f => String.eqb (baseName_of f) k) files = true)
      by (apply existsb_exists; exists f; tauto).
    congruence.
Qed.

(** *** Leaving out the entries whose stem names a member of
        [Object.prototype] *)

Lemma find_filter {A} (p q : A -> bool) l :
  (forall x, p x = true -> q x = true) ->
  find p (filter q l) = find p l.
Proof.
  intros H. induction l as [|x l IH]; simpl; auto.
  destruct (q x) eqn:Eq; simpl.
  - now rewrite IH.
  - destruct (p x) eqn:Ep; auto. rewrite (H x Ep) in Eq. discriminate.
Qed.

Lemma filter_rev {A} (q : A -> bool) l : filter q (rev l) = rev (filter q l).
Proof.
  induction l as [|x l IH]; simpl; auto.
  rewrite filter_app, IH. simpl. destruct (q x); simpl; auto.
  now rewrite app_nil_r.
Qed.

Lemma last_such_filter p q l :
  (forall x, p x = true -> q x = true) ->
  last_such p (filter q l) = last_such p l.
Proof.
  intros H. unfold last_such. rewrite <- filter_rev. now apply find_filter.
Qed.

Lemma existsb_filter {A} (p q : A -> bool) l :
  (forall x, p x = true -> q x = true) ->
  existsb p (filter q l) = existsb p l.
Proof.
  intros H. induction l as [|x l IH]; simpl; auto.
  destruct (q x) eqn:Eq; simpl.
  - now rewrite IH.
  - destruct (p x) eqn:Ep; auto. rewrite (H x Ep) in Eq. discriminate.
Qed.

Lemma stem_unnamed (s : string) (p : string -> bool) :
  names_member s = false ->
  forall f, String.eqb (baseName_of f) s && p f = true ->
            negb (names_member (baseName_of f)) = true.
Proof.
  intros Hs f H. apply andb_true_iff in H. destruct H as [H _].
  apply String.eqb_eq in H. now rewrite H, Hs.
Qed.

Lemma text_of_unnamed s files :
  names_member s = false -> text_of s (unnamed files) = text_of s files.
Proof. intros Hs. apply last_such_filter. now apply stem_unnamed. Qed.

Lemma image_of_unnamed s files :
  names_member s = false -> image_of s (unnamed files) = image_of s files.
Proof. intros Hs. apply last_such_filter. now apply stem_unnamed. Qed.

Lemma yields_unnamed files s :
  yields (unnamed files) s = yields files s && negb (names_member s).
Proof.
  destruct (names_member s) eqn:Hs.
  - rewrite andb_false_r. apply not_true_is_false. intros H.
    apply existsb_exists in H. destruct H as (f & Hf & Hp).
    apply filter_In in Hf. destruct Hf as [_ Hf].
    apply andb_true_iff in Hp. destruct Hp as [Hp _].
    apply String.eqb_eq in Hp. rewrite Hp, Hs in Hf. discriminate.
  - rewrite andb_true_r. apply existsb_filter. now apply stem_unnamed.
Qed.

Lemma first_seen_filter (p : string -> bool) l :
  first_seen (filter p l) = filter p (first_seen l).
Proof.
  induction l as [|x l IH]; simpl; auto.
  destruct (p x) eqn:E; simpl.
  - rewrite IH. f_equal. apply filter_swap.
  - rewrite IH, filter_twice. apply filter_ext. intros a.
    destruct (String.eqb_spec a x) as [->|Hne]; simpl; auto.
Qed.

Lemma map_filter_stem (p : string -> bool) files :
  map baseName_of (filter (fun f => p (baseName_of f)) files)
  = filter p (map baseName_of files).
Proof.
  induction files as [|f files IH]; simpl; auto.
  destruct (p (baseName_of f)); simpl; now rewrite IH.
Qed.

(** *** The first loop of the handler *)

Lemma clean_property h k :
  clean h ->
  property h k =
  match get k (fileGroups h) with
  | Some g => Group g
  | None =>
      match inherit k with
      | ObjectPrototype => Prototype
      | Method => Builtin
      | Nothing => Undefined
      end
  end.
Proof.
  intros [Hp _]. unfold property. rewrite Hp. reflexivity.
Qed.

Lemma heap_eta h : prototype h = [] ->
  h = {| fileGroups := fileGroups h; prototype := [] |}.
Proof. destruct h. simpl. now intros ->. Qed.

(** Under the name of a member no group is made, and the name of the file
    goes nowhere that is read. *)
Lemma group_file_member h file :
  clean h -> names_member (baseName_of file) = true ->
  polluting file = false ->
  group_file h file = h.
Proof.
  intros Hc Hm Hp. pose proof Hc as [_ Hown].
  pose proof (clean_property h (baseName_of file) Hc) as Hprop.
  rewrite (Hown _ Hm) in Hprop.
  unfold polluting, recognized, is_text, is_image in Hp.
  unfold names_member in Hm. unfold inherit in *. unfold group_file.
  destruct (String.eqb (baseName_of file) "__proto__"); cbn [andb] in *.
  - rewrite Hprop. cbn [truthy_value].
    apply orb_false_iff in Hp. destruct Hp as [-> ->]. reflexivity.
  - destruct (includes prototype_methods (baseName_of file));
      [|discriminate].
    rewrite Hprop. cbn [truthy_value]. unfold assign. rewrite Hprop.
    destruct (String.eqb (ext_of file) ".txt"); auto.
    now destruct (includes image_extensions (ext_of file)).
Qed.

(** Under any other name the turn goes on own properties alone. *)
Lemma group_file_unnamed h file :
  clean h -> names_member (baseName_of file) = false ->
  group_file h file =
  {| fileGroups := own_group_file (fileGroups h) file; prototype := [] |}.
Proof.
  intros Hc Hm. pose proof Hc as [Hproto _].
  unfold group_file, own_group_file, assign.
  rewrite (clean_property _ _ Hc).
  unfold names_member in Hm.
  destruct (get (baseName_of file) (fileGroups h)) as [g|] eqn:Hg.
  - cbn [truthy_value]. rewrite (clean_property _ _ Hc), Hg, Hproto.
    destruct (String.eqb (ext_of file) ".txt"); [reflexivity|].
    destruct (includes image_extensions (ext_of file)); [reflexivity|].
    now apply heap_eta.
  - destruct (inherit (baseName_of file)) eqn:E; try discriminate.
    cbn [truthy_value]. unfold property. cbn [fileGroups prototype].
    rewrite !get_set_same, Hproto.
    destruct (String.eqb (ext_of file) ".txt"); [reflexivity|].
    destruct (includes image_extensions (ext_of file)); reflexivity.
Qed.

Lemma group_file_clean h file :
  clean h -> polluting file = false ->
  clean (group_file h file) /\
  fileGroups (group_file h file) =
  if names_member (baseName_of file) then fileGroups h
  else own_group_file (fileGroups h) file.
Proof.
  intros Hc Hp. destruct (names_member (baseName_of file)) eqn:Hm.
  - rewrite (group_file_member _ _ Hc Hm Hp). now split.
  - rewrite (group_file_unnamed _ _ Hc Hm). split; [|reflexivity].
    split; [reflexivity|]. intros k Hk. cbn [fileGroups].
    rewrite get_group_file.
    destruct (String.eqb_spec (baseName_of file) k) as [E|_];
      [congruence|].
    destruct Hc as [_ Hown]. now apply Hown.
Qed.

Lemma fold_group_file_clean files : forall h,
  clean h -> pollutes files = false ->
  clean (fold_left group_file files h) /\
  fileGroups (fold_left group_file files h) =
  fold_left own_group_file (unnamed files) (fileGroups h).
Proof.
  induction files as [|f files IH]; intros h Hc Hp; [now split|].
  unfold pollutes in Hp. simpl in Hp. apply orb_false_iff in Hp.
  destruct Hp as [Hf Hp].
  destruct (group_file_clean h f Hc Hf) as [Hc' Hg].
  destruct (IH _ Hc' Hp) as [Hc'' Hg'].
  cbn [fold_left]. split; auto. rewrite Hg', Hg. unfold unnamed. simpl.
  now destruct (names_member (baseName_of f)).
Qed.

(** A scan that meets no recognized file of stem [__proto__] groups the
    entries whose stem names no member of [Object.prototype], and leaves
    [Object.prototype] as it was. *)
Lemma group_files_clean files :
  pollutes files = false ->
  clean (group_files [] files) /\
  fileGroups (group_files [] files) = own_group_files (unnamed files).
Proof.
  intros Hp. apply fold_group_file_clean; auto.
  split; [reflexivity|]. reflexivity.
Qed.

(** *** No key is created twice *)

Lemma set_distinct {V} (o : obj V) k v :
  NoDup (created o) -> NoDup (created (set k v o)).
Proof.
  intros H. rewrite created_set. destruct (get k o) eqn:E; auto.
  apply get_none_iff in E.
  apply NoDup_rev in H. rewrite <- (rev_involutive (created o ++ [k])).
  apply NoDup_rev. rewrite rev_app_distr. simpl. constructor; auto.
  now rewrite <- in_rev.
Qed.

Lemma assign_distinct h baseName field file :
  distinct_keys h -> distinct_keys (assign h baseName field file).
Proof.
  intros [H1 H2]. unfold assign.
  destruct (property h baseName); split; simpl; auto using set_distinct.
Qed.

Lemma group_file_distinct h file :
  distinct_keys h -> distinct_keys (group_file h file).
Proof.
  intros H. unfold group_file.
  assert (H' : distinct_keys
                 (if truthy_value (property h (baseName_of file)) then h
                  else {| fileGroups := set (baseName_of file) empty_group
                                            (fileGroups h);
                          prototype := prototype h |})).
  { destruct (truthy_value _); auto. destruct H as [H1 H2].
    split; simpl; auto using set_distinct. }
  destruct (String.eqb (ext_of file) ".txt"); [now apply assign_distinct|].
  destruct (includes image_extensions (ext_of file)); auto.
  now apply assign_distinct.
Qed.

Lemma properties_distinct p : NoDup (created (properties p)).
Proof.
  destruct p; simpl; repeat constructor; simpl; intuition discriminate.
Qed.

Lemma group_files_distinct p files :
  distinct_keys (group_files (properties p) files).
Proof.
  unfold group_files.
  assert (H : distinct_keys
                {| fileGroups := empty; prototype := properties p |})
    by (split; [constructor | apply properties_distinct]).
  revert H.
  generalize {| fileGroups := @empty group; prototype := properties p |}.
  induction files as [|f files IH]; intros h H; simpl; auto.
  apply IH. now apply group_file_distinct.
Qed.

Lemma keys_nodup {V} (o : obj V) : NoDup (created o) -> NoDup (keys o).
Proof. rewrite keys_enumeration. apply enumeration_order_nodup. Qed.

Lemma for_in_nodup h : distinct_keys h -> NoDup (for_in h).
Proof.
  intros [H1 H2]. unfold for_in. apply NoDup_app.
  - now apply keys_nodup.
  - apply NoDup_filter. now apply keys_nodup.
  - intros k Hk Hin. apply filter_In in Hin. destruct Hin as [_ Hin].
    apply keys_in, in_created_get in Hk. destruct Hk as [g Hg].
    now rewrite Hg in Hin.
Qed.

(** *** The second loop: what each key emits *)

Lemma image_data_shows fs name uri :
  image_data fs name = Ok uri -> shows fs name uri.
Proof.
  unfold image_data, shows, toString_base64.
  destruct (readFile fs (join newsDir name)) as [bytes|e]; cbn [bind];
    [|discriminate].
  destruct (mimeType_of fs name) as [mimeType|e]; cbn [bind]; [|discriminate].
  destruct (N.of_nat (String.length (base64 bytes)) <=? MAX_STRING_LENGTH fs)%N;
    cbn [bind]; [|discriminate].
  destruct (N.of_nat (String.length (data_uri mimeType (base64 bytes)))
            <=? MAX_STRING_LENGTH fs)%N; [|discriminate].
  intros [= <-]. eauto.
Qed.

(** Whatever the fields, a turn adds at most one article, titled with the
    key. *)
Lemma article_of_shape fs t i acc k acc' :
  article_of fs t i acc k = Ok acc' ->
  acc' = acc \/
  exists a, acc' = acc ++ [a] /\ title a = k /\ type a = "article" /\
            (imagePath a = None \/
             exists mimeType encoded,
               imagePath a = Some (data_uri mimeType encoded)).
Proof.
  unfold article_of.
  assert (Himg : forall r : result (option string),
            r = match i with
                | Some name =>
                    if truthy name
                    then bind (image_data fs name)
                              (fun imageData => Ok (Some imageData))
                    else Ok None
                | None => Ok None
                end ->
            forall v, r = Ok v ->
            v = None \/ exists mimeType encoded,
                          v = Some (data_uri mimeType encoded)).
  { intros r -> v. destruct i as [name|]; [|intros [= <-]; now left].
    destruct (truthy name); [|intros [= <-]; now left].
    destruct (image_data fs name) as [uri|e] eqn:E; simpl; [|discriminate].
    intros [= <-]. right. apply image_data_shows in E.
    destruct E as (bytes & mimeType & _ & _ & ->). eauto. }
  match goal with
  | |- bind ?r _ = _ -> _ =>
      specialize (Himg r eq_refl); destruct r as [v|e]; simpl; [|discriminate]
  end.
  specialize (Himg v eq_refl).
  destruct (present t && present i);
    [|destruct (present t); [|destruct (present i)]].
  - destruct (readFileUtf8 fs _) as [text|e]; simpl; [|discriminate].
    intros [= <-]. right. eexists. repeat split; simpl; auto.
  - destruct (readFileUtf8 fs _) as [text|e]; simpl; [|discriminate].
    intros [= <-]. right. eexists. repeat split; simpl; auto.
  - intros [= <-]. right. eexists. repeat split; simpl; auto.
  - intros [= <-]. now left.
Qed.

Lemma emit_shape fs h acc k acc' :
  emit fs h acc k = Ok acc' ->
  acc' = acc \/
  exists a, acc' = acc ++ [a] /\ title a = k /\ type a = "article" /\
            (imagePath a = None \/
             exists mimeType encoded,
               imagePath a = Some (data_uri mimeType encoded)).
Proof.
  unfold emit. destruct (property h k); try discriminate;
    apply article_of_shape.
Qed.

Lemma for_of_emit_shape fs h ks : forall acc out,
  NoDup ks ->
  for_of (emit fs h) ks acc = Ok out ->
  exists new,
    out = acc ++ new /\
    NoDup (map title new) /\
    (forall a, In a new -> In (title a) ks) /\
    Forall (fun a => type a = "article" /\
                     (imagePath a = None \/
                      exists mimeType encoded,
                        imagePath a = Some (data_uri mimeType encoded))) new.
Proof.
  induction ks as [|k ks IH]; intros acc out Hnd H.
  - simpl in H. injection H as <-. exists []. rewrite app_nil_r.
    split; [reflexivity|]. split; [constructor|].
    split; [now intros a [] | constructor].
  - apply for_of_cons in H. destruct H as (acc1 & H1 & H2).
    inversion Hnd as [|? ? Hk Hks]; subst.
    apply IH in H2; auto. destruct H2 as (new & -> & Ht & Hin & Hall).
    destruct (emit_shape _ _ _ _ _ H1) as [->|(a & -> & Ha & Hty & Himg)].
    + exists new. repeat split; auto. intros a Ha. right. now apply Hin.
    + exists (a :: new). rewrite <- app_assoc. simpl.
      repeat split; auto.
      * constructor; auto. rewrite Ha. intros Hk'.
        apply in_map_iff in Hk'. destruct Hk' as (a' & E & Ha').
        apply Hin in Ha'. congruence.
      * intros a' [<-|Ha']; [now left | right; now apply Hin].
Qed.

(** The articles of a scan, whatever the file system holds. *)
Lemma news_articles_shape fs out :
  news_articles fs = Ok out ->
  NoDup (map title out) /\
  Forall (fun a => type a = "article" /\
                   (imagePath a = None \/
                    exists mimeType encoded,
                      imagePath a = Some (data_uri mimeType encoded))) out.
Proof.
  unfold news_articles.
  destruct (readdir fs newsDir) as [files|e]; simpl; [|discriminate].
  intros H. apply for_of_emit_shape in H.
  - destruct H as (new & -> & Hnd & _ & Hall). simpl. now split.
  - apply for_in_nodup, group_files_distinct.
Qed.

(** With well-named fields, the article tells the text and shows the
    image. *)
Lemma article_of_ok fs g acc k acc' :
  well_named g ->
  article_of fs (textFile g) (imageFile g) acc k = Ok acc' ->
  (present (textFile g) || present (imageFile g) = false /\ acc' = acc) \/
  (present (textFile g) || present (imageFile g) = true /\
   exists a, acc' = acc ++ [a] /\ title a = k /\ describes fs g a).
Proof.
  intros [Ht Hi]. unfold article_of, describes.
  destruct g as [[t|] [i|]]; simpl in *.
  - rewrite (Ht t eq_refl), (Hi i eq_refl). simpl.
    destruct (image_data fs i) as [uri|e] eqn:E; simpl; [|discriminate].
    apply image_data_shows in E.
    destruct (readFileUtf8 fs (join newsDir t)) as [text|e]; simpl; [|discriminate].
    intros [= <-]. right. split; auto. eexists. repeat split; simpl; eauto.
  - rewrite (Ht t eq_refl). simpl.
    destruct (readFileUtf8 fs (join newsDir t)) as [text|e]; simpl; [|discriminate].
    intros [= <-]. right. split; auto. eexists. repeat split; simpl; eauto.
  - rewrite (Hi i eq_refl). simpl.
    destruct (image_data fs i) as [uri|e] eqn:E; simpl; [|discriminate].
    apply image_data_shows in E.
    intros [= <-]. right. split; auto. eexists. repeat split; simpl; eauto.
  - intros [= <-]. now left.
Qed.

Lemma own_fields g :
  own_field g "textFile" = textFile g /\ own_field g "imageFile" = imageFile g.
Proof. split; reflexivity. Qed.

(** After a clean scan, a turn sees the own fields of the group. *)
Lemma clean_emit fs h acc k g :
  clean h -> get k (fileGroups h) = Some g ->
  emit fs h acc k = article_of fs (textFile g) (imageFile g) acc k.
Proof.
  intros Hc Hg. unfold emit. rewrite (clean_property _ _ Hc), Hg.
  destruct Hc as [Hp _]. unfold get_field. rewrite Hp. simpl.
  destruct (own_fields g) as [-> ->].
  now destruct (textFile g), (imageFile g).
Qed.

Lemma clean_for_in h : clean h -> for_in h = keys (fileGroups h).
Proof.
  intros [Hp _]. unfold for_in. rewrite Hp. simpl. apply app_nil_r.
Qed.

Lemma emit_ok fs h acc k g acc' :
  clean h -> get k (fileGroups h) = Some g -> well_named g ->
  emit fs h acc k = Ok acc' ->
  (has_file (fileGroups h) k = false /\ acc' = acc) \/
  (has_file (fileGroups h) k = true /\
   exists a, acc' = acc ++ [a] /\ title a = k /\ describes fs g a).
Proof.
  intros Hc Hg Hwn. rewrite (clean_emit _ _ _ _ _ Hc Hg).
  unfold has_file. rewrite Hg. now apply article_of_ok.
Qed.

Lemma for_of_emit fs h ks : forall acc out,
  clean h ->
  (forall k, In k ks -> exists g, get k (fileGroups h) = Some g
                                  /\ well_named g) ->
  for_of (emit fs h) ks acc = Ok out ->
  exists new,
    out = acc ++ new /\
    map title new = filter (has_file (fileGroups h)) ks /\
    Forall (fun a => exists g, get (title a) (fileGroups h) = Some g
                               /\ describes fs g a) new.
Proof.
  induction ks as [|k ks IH]; intros acc out Hc Hks H.
  - simpl in H. injection H as <-. exists []. now rewrite app_nil_r.
  - apply for_of_cons in H. destruct H as (acc1 & H1 & H2).
    destruct (Hks k (or_introl eq_refl)) as (g & Hg & Hwn).
    apply IH in H2; auto; [|intros k' Hk'; apply Hks; now right].
    destruct H2 as (new & -> & Htitles & Hall).
    destruct (emit_ok _ _ _ _ _ _ Hc Hg Hwn H1)
      as [[Hno ->]|[Hyes (a & -> & Ha & Hd)]].
    + exists new. simpl. rewrite Hno. auto.
    + exists (a :: new). simpl. rewrite Hyes, <- app_assoc. simpl.
      repeat split; [congruence|].
      constructor; auto. exists g. now rewrite Ha.
Qed.

(** The whole scan, where [Object.prototype] is and stays as the engine
    made it, when nothing fails. *)
Lemma news_articles_ok fs files out :
  readdir fs newsDir = Ok files ->
  unpolluted fs files ->
  news_articles fs = Ok out ->
  map title out =
  filter (fun k => yields files k && negb (names_member k))
         (enumeration_order
            (filter (fun k => negb (names_member k))
                    (first_seen (map baseName_of files)))) /\
  Forall (fun a =>
            names_member (title a) = false /\
            yields files (title a) = true /\
            describes fs {| textFile := text_of (title a) files;
                            imageFile := image_of (title a) files |} a) out.
Proof.
  intros Hdir [Hfresh Hp]. unfold news_articles. rewrite Hdir, Hfresh. simpl.
  destruct (group_files_clean files Hp) as [Hc Hg].
  rewrite (clean_for_in _ Hc). intros H.
  apply for_of_emit in H; auto.
  - destruct H as (new & -> & Ht & Hall). simpl.
    assert (Htitles : map title new =
              filter (fun k => yields files k && negb (names_member k))
                (enumeration_order
                   (filter (fun k => negb (names_member k))
                           (first_seen (map baseName_of files))))).
    { rewrite Ht, Hg, keys_enumeration, created_group_files.
      unfold unnamed.
      rewrite (map_filter_stem (fun k => negb (names_member k))),
              first_seen_filter.
      apply filter_ext. intros k. rewrite has_file_yields.
      apply yields_unnamed. }
    split; [exact Htitles|].
    apply Forall_forall. intros a Ha.
    assert (Hk : In (title a) (map title new)) by now apply in_map.
    rewrite Htitles in Hk. apply filter_In in Hk. destruct Hk as [_ Hk].
    apply andb_true_iff in Hk. destruct Hk as [Hy Hm].
    apply negb_true_iff in Hm. split; [exact Hm | split; [exact Hy|]].
    rewrite Forall_forall in Hall. destruct (Hall a Ha) as (g & Hga & Hd).
    rewrite Hg, get_group_files in Hga.
    destruct (existsb _ (unnamed files)); [|discriminate].
    injection Hga as <-.
    now rewrite (text_of_unnamed _ _ Hm), (image_of_unnamed _ _ Hm) in Hd.
  - intros k Hk. apply keys_in, in_created_get in Hk.
    destruct Hk as [g Hgk]. exists g. split; auto.
    rewrite Hg in Hgk. eapply group_files_well_named; eauto.
Qed.

End NewsFacts.

(* ================================================================== *)
(** ** Properties of the news and announcement handlers *)

Module NewsProperties.
Import JsString NodePath JsObject Runtime Main Spec Aux.
Import ObjectFacts LoopFacts NewsFacts Examples.

(** C10.  Every Article that the news handler emits carries, beyond
    title, description and imagePath, a field [type] whose value is the
    constant ['article']. *)
Theorem article_type_is_constant (fs : FileSystem) :
  exists out,
    outcome (get_news_articles fs) = Returns out /\
    Forall (fun a => type a = "article") out.
Proof.
  unfold get_news_articles.
  destruct (news_articles fs) as [out|e] eqn:H; simpl.
  - exists out. split; auto.
    destruct (news_articles_shape _ _ H) as [_ Hall].
    eapply Forall_impl; [|exact Hall]. simpl. now intros a [Ht _].
  - exists []. split; auto.
Qed.








(** An unreachable share: both handlers answer with an empty array and one
    line on the console. *)
Example unreachable_share :
  get_news_articles offline_fs =
  {| outcome := Returns [];
     console := [("Error reading news articles:", "ENOENT")] |} /\
  get_announcements offline_fs =
  {| outcome := Returns [];
     console := [("Error reading announcements:", "ENOENT")] |}.
Proof. split; reflexivity. Qed.

Lemma for_of_announce fs (text : string -> string) files : forall acc,
  (forall file, In file files -> is_text file = true ->
     readFileUtf8 fs (join announcementsDir file) = Ok (text file)) ->
  for_of (announce fs) files acc =
  Ok (acc ++ map (fun file => {| content := trim (text file) |})
                 (filter (fun file =>
                            is_text file
                            && (1 <=? String.length (trim (text file)))%nat
                            && (String.length (trim (text file)) <=? 100)%nat)
                         files)).
Proof.
  induction files as [|f files IH]; intros acc Hread.
  - simpl. now rewrite app_nil_r.
  - assert (Hrest : forall file, In file files -> is_text file = true ->
              readFileUtf8 fs (join announcementsDir file) = Ok (text file))
      by (intros; apply Hread; auto; now right).
    cbn [for_of filter]. cbv beta.
    unfold announce at 1. fold (ext_of f). fold (is_text f).
    destruct (is_text f) eqn:Ht; cbn [andb bind].
    + rewrite (Hread f (or_introl eq_refl) Ht). cbn [bind].
      change (0 <? String.length (trim (text f)))%nat
        with (1 <=? String.length (trim (text f)))%nat.
      destruct ((1 <=? String.length (trim (text f)))%nat
                && (String.length (trim (text f)) <=? 100)%nat);
        cbn [bind map].
      * rewrite IH by assumption. now rewrite <- app_assoc.
      * now apply IH.
    + now apply IH.
Qed.

(** C7.  The announcement handler returns exactly the records
    [{content: trimmed contents}] of the [.txt] files of the listing whose
    trimmed content has a length from 1 to 100, bounds included, in the
    order of the listing; files with an empty or a longer trimmed content
    and files that are not [.txt] are left out. *)
Theorem announcements_are_short_texts
    (fs : FileSystem) (files : list string) (text : string -> string) :
  readdir fs announcementsDir = Ok files ->
  (forall file, In file files -> is_text file = true ->
     readFileUtf8 fs (join announcementsDir file) = Ok (text file)) ->
  get_announcements fs =
  {| outcome :=
       Returns
         (map (fun file => {| content := trim (text file) |})
              (filter (fun file =>
                         is_text file
                         && (1 <=? String.length (trim (text file)))%nat
                         && (String.length (trim (text file)) <=? 100)%nat)
                      files));
     console := [] |}.
Proof.
  intros Hdir Hread. unfold get_announcements, announcements_of.
  rewrite Hdir. simpl. now rewrite (for_of_announce fs text files [] Hread).
Qed.

Lemma announcements_are_short_texts_witness :
  readdir notices_fs announcementsDir = Ok notices /\
  (forall file, In file notices -> is_text file = true ->
     readFileUtf8 notices_fs (join announcementsDir file)
     = Ok (notice_text file)) /\
  get_announcements notices_fs =
  {| outcome := Returns [ {| content := "Lunch at noon" |};
                          {| content := hundred |} ];
     console := [] |}.
Proof.
  assert (Hdir : readdir notices_fs announcementsDir = Ok notices)
    by reflexivity.
  assert (Hread : forall file, In file notices -> is_text file = true ->
            readFileUtf8 notices_fs (join announcementsDir file)
            = Ok (notice_text file)).
  { intros file Hin _. simpl in Hin.
    repeat (destruct Hin as [<-|Hin]; [reflexivity|]). contradiction. }
  split; [exact Hdir | split; [exact Hread |]].
  rewrite (announcements_are_short_texts notices_fs notices notice_text Hdir Hread).
  reflexivity.
Defined.


(** C1, at the failing input.  A picture whose extension is written in
    capitals keeps the extension in its title: [basename] is given the
    lower-cased extension and compares case-sensitively. *)
Theorem capital_extension_stays_in_title :
  get_news_articles (listing_fs capital_extension "" [x4d]) =
  {| outcome :=
       Returns [ {| type := "article"; title := "photo.JPG";
                    description := "";
                    imagePath := Some "data:image/jpeg;base64,TQ==" |} ];
     console := [] |}.
Proof. reflexivity. Qed.








(** C8, at the failing input.  A text whose extension is written in
    capitals is not paired with the picture of the same name: the text is
    grouped under its whole file name, and two articles are returned where
    the stem ["a"] has a text file and an image file. *)
Theorem capital_text_is_not_paired :
  get_news_articles (listing_fs capital_text "  story  " [x4d]) =
  {| outcome :=
       Returns [ {| type := "article"; title := "a.TXT";
                    description := "story"; imagePath := None |};
                 {| type := "article"; title := "a";
                    description := "";
                    imagePath := Some "data:image/jpeg;base64,TQ==" |} ];
     console := [] |}.
Proof. reflexivity. Qed.

End NewsProperties.

(* ================================================================== *)
(** ** The forecast bucketer, loop by loop *)

Module WeatherFacts.
Import JsString JsObject Runtime Weather Spec Aux ObjectFacts LoopFacts.

(** *** The order of the numbers *)

Lemma le_refl a : le a a.
Proof. destruct a; simpl; auto. apply Qle_refl. Qed.

Lemma le_trans a b c : le a b -> le b c -> le a c.
Proof.
  destruct a, b, c; simpl; auto; try contradiction. apply Qle_trans.
Qed.

Lemma lt_le a b : lt a b = true -> le a b.
Proof.
  destruct a, b; simpl; auto; try discriminate.
  intros H. apply negb_true_iff in H.
  apply Qlt_le_weak, Qnot_le_lt. intros Hle.
  apply Qle_bool_iff in Hle. congruence.
Qed.

Lemma not_lt_le a b : lt a b = false -> le b a.
Proof.
  destruct a, b; simpl; auto; try discriminate.
  intros H. apply negb_false_iff in H. now apply Qle_bool_iff.
Qed.

Lemma le_Infinity a : le Infinity a -> a = Infinity.
Proof. destruct a; simpl; tauto. Qed.

Lemma le_NegInfinity a : le a NegInfinity -> a = NegInfinity.
Proof. destruct a; simpl; tauto. Qed.

(** *** The grouping loop *)

Lemma bucket_dated date items : bucket date items = filter (dated date) items.
Proof. reflexivity. Qed.

Lemma bucket_no_dated k items :
  existsb (dated k) items = false -> bucket k items = [].
Proof.
  rewrite bucket_dated. induction items as [|x items IH]; simpl; auto.
  destruct (dated k x); simpl; [discriminate | exact IH].
Qed.

Lemma group_item_ok G item G' :
  group_item G item = Ok G' ->
  exists d, dateString_of item = Ok d /\
            created G' = add_key (created G) d /\
            forall k, get k G' =
                      if String.eqb k d then Some (held G k ++ [item])
                      else get k G.
Proof.
  unfold group_item. destruct (dateString_of item) as [d|e]; simpl; [|discriminate].
  intros H. exists d. split; auto.
  destruct (get d G) as [l|] eqn:Hd.
  - rewrite Hd in H. injection H as <-. split.
    + rewrite created_set_add_key. reflexivity.
    + intros k. destruct (String.eqb_spec k d) as [->|Hne].
      * rewrite get_set_same. unfold held. now rewrite Hd.
      * now apply get_set_other.
  - rewrite get_set_same in H. injection H as <-. split.
    + now rewrite !created_set_add_key, add_key_again.
    + intros k. destruct (String.eqb_spec k d) as [->|Hne].
      * rewrite get_set_same. unfold held. now rewrite Hd.
      * now rewrite !get_set_other.
Qed.

Lemma group_item_total G item d :
  dateString_of item = Ok d -> exists G', group_item G item = Ok G'.
Proof.
  intros H. unfold group_item. rewrite H. simpl.
  destruct (get d G) eqn:Hd.
  - rewrite Hd. eauto.
  - rewrite get_set_same. eauto.
Qed.

Lemma grouping_ok items : forall G G',
  for_of group_item items G = Ok G' ->
  Forall (fun item => dateString_of item = Ok (date_key item)) items /\
  created G' = fold_left add_key (map date_key items) (created G) /\
  forall k, get k G' =
            if existsb (dated k) items
            then Some (held G k ++ bucket k items)
            else get k G.
Proof.
  induction items as [|item items IH]; intros G G' H.
  - simpl in H. injection H as <-. simpl. auto.
  - apply for_of_cons in H. destruct H as (G1 & H1 & H2).
    apply group_item_ok in H1. destruct H1 as (d & Hd & Hc & Hg).
    apply IH in H2. destruct H2 as (Hall & Hc' & Hg').
    assert (Hk : date_key item = d) by (unfold date_key; now rewrite Hd).
    split; [|split].
    + constructor; auto. now rewrite Hk.
    + simpl. now rewrite Hk, <- Hc.
    + intros k. rewrite Hg'. rewrite !bucket_dated. cbn [existsb filter].
      assert (Ek : dated k item = String.eqb k d)
        by (unfold dated; rewrite Hd; apply String.eqb_sym).
      rewrite Ek. unfold held at 1. rewrite !Hg.
      destruct (String.eqb k d) eqn:E; cbn [orb].
      * destruct (existsb (dated k) items) eqn:Ex.
        -- now rewrite <- app_assoc.
        -- apply bucket_no_dated in Ex. rewrite bucket_dated in Ex.
           now rewrite Ex.
      * unfold held. reflexivity.
Qed.

(** *** Sorting, and the records of the selected dates *)

Lemma insert_sorted_perm x l : Permutation (insert_sorted x l) (x :: l).
Proof.
  induction l as [|y l IH]; simpl; auto.
  destruct (JsString.lt y x); auto.
  rewrite IH. apply perm_swap.
Qed.

Lemma sort_perm l : Permutation (sort l) l.
Proof.
  induction l as [|x l IH]; simpl; auto.
  rewrite insert_sorted_perm. now constructor.
Qed.

Lemma firstn_in {A} n (l : list A) x : In x (firstn n l) -> In x l.
Proof.
  revert l. induction n as [|n IH]; intros [|y l]; simpl; try tauto.
  intros [H|H]; auto.
Qed.

Lemma for_of_daily G ds : forall acc,
  (forall d, In d ds -> In d (created G)) ->
  for_of (daily G) ds acc =
  Ok (acc ++ map (fun d => day_forecast d (held G d)) ds).
Proof.
  induction ds as [|d ds IH]; intros acc Hds; simpl.
  - now rewrite app_nil_r.
  - unfold daily at 1, held at 1.
    destruct (in_created_get G d (Hds d (or_introl eq_refl))) as [l Hl].
    rewrite Hl. simpl. rewrite IH by (intros; apply Hds; now right).
    now rewrite <- app_assoc.
Qed.

Lemma selected_in_keys G today d : In d (selected G today) -> In d (created G).
Proof.
  unfold selected. intros H. apply firstn_in in H.
  apply (Permutation_in _ (sort_perm _)) in H.
  apply filter_In in H. now apply keys_in.
Qed.

Lemma held_bucket items G d :
  for_of group_item items empty = Ok G ->
  In d (created G) ->
  held G d = bucket d items /\ bucket d items <> [].
Proof.
  intros HG Hd. apply grouping_ok in HG. destruct HG as (_ & _ & Hget).
  apply in_created_get in Hd. destruct Hd as [l Hl].
  unfold held. rewrite Hl. rewrite Hget in Hl.
  destruct (existsb (dated d) items) eqn:Ex; [|discriminate].
  injection Hl as <-. unfold held. simpl. split; auto.
  apply existsb_exists in Ex. destruct Ex as (x & Hx & Hdx).
  intros E. assert (In x (bucket d items))
    by (rewrite bucket_dated; apply filter_In; auto).
  rewrite E in H. contradiction.
Qed.

(** The function, once the samples are grouped and today is known. *)
Lemma process_eq now items G today :
  for_of group_item items empty = Ok G ->
  JsDate.toISODate now = Ok today ->
  processForecastData now items =
  Ok (map (fun d => day_forecast d (bucket d items)) (selected G today)).
Proof.
  intros HG Ht. unfold processForecastData. rewrite HG, Ht. simpl.
  fold (selected G today).
  rewrite for_of_daily by apply selected_in_keys. simpl. f_equal.
  apply map_ext_in. intros d Hd. f_equal.
  apply held_bucket; auto. eapply selected_in_keys; eauto.
Qed.

Lemma process_inv now items out :
  processForecastData now items = Ok out ->
  exists G today,
    for_of group_item items empty = Ok G /\
    JsDate.toISODate now = Ok today /\
    out = map (fun d => day_forecast d (bucket d items)) (selected G today).
Proof.
  intros H. pose proof H as H'. unfold processForecastData in H'.
  destruct (for_of group_item items empty) as [G|e] eqn:HG; [|discriminate].
  simpl in H'.
  destruct (JsDate.toISODate now) as [today|e] eqn:Ht; [|discriminate].
  exists G, today. repeat split; auto.
  rewrite (process_eq _ _ _ _ HG Ht) in H. congruence.
Qed.

(** Every record is the summary of the non-empty bucket of its date. *)
Lemma record_of_bucket now items out r :
  processForecastData now items = Ok out -> In r out ->
  bucket (date r) items <> [] /\
  r = day_forecast (date r) (bucket (date r) items).
Proof.
  intros H Hr. apply process_inv in H.
  destruct H as (G & today & HG & _ & ->).
  apply in_map_iff in Hr. destruct Hr as (d & <- & Hd). simpl.
  split; auto. eapply held_bucket; eauto. eapply selected_in_keys; eauto.
Qed.

(** *** The tally of a bucket *)

Lemma tally_min dayData : forall t,
  let t' := fold_left tally_item dayData t in
  le (minTemp t') (minTemp t) /\
  (forall item, In item dayData -> le (minTemp t') (temp item)) /\
  (minTemp t' = minTemp t \/ In (minTemp t') (map temp dayData)).
Proof.
  induction dayData as [|x l IH]; intros t; simpl.
  - split; [apply le_refl | split; [tauto | now left]].
  - destruct (IH (tally_item t x)) as (H1 & H2 & H3).
    assert (Hx : le (minTemp (tally_item t x)) (temp x) /\
                 le (minTemp (tally_item t x)) (minTemp t) /\
                 (minTemp (tally_item t x) = minTemp t \/
                  minTemp (tally_item t x) = temp x)).
    { unfold tally_item; simpl.
      destruct (lt (temp x) (minTemp t)) eqn:E.
      - split; [apply le_refl | split; [now apply lt_le | now right]].
      - split; [now apply not_lt_le | split; [apply le_refl | now left]]. }
    destruct Hx as (Hx1 & Hx2 & Hx3).
    split; [eapply le_trans; eauto | split].
    + intros item [<-|Hin]; [eapply le_trans; eauto | now apply H2].
    + destruct H3 as [H3|H3]; [|now right; right].
      rewrite H3. destruct Hx3 as [Hx3|Hx3]; [now left | right; left; congruence].
Qed.

Lemma tally_max dayData : forall t,
  let t' := fold_left tally_item dayData t in
  le (maxTemp t) (maxTemp t') /\
  (forall item, In item dayData -> le (temp item) (maxTemp t')) /\
  (maxTemp t' = maxTemp t \/ In (maxTemp t') (map temp dayData)).
Proof.
  induction dayData as [|x l IH]; intros t; simpl.
  - split; [apply le_refl | split; [tauto | now left]].
  - destruct (IH (tally_item t x)) as (H1 & H2 & H3).
    assert (Hx : le (temp x) (maxTemp (tally_item t x)) /\
                 le (maxTemp t) (maxTemp (tally_item t x)) /\
                 (maxTemp (tally_item t x) = maxTemp t \/
                  maxTemp (tally_item t x) = temp x)).
    { unfold tally_item, gt; simpl.
      destruct (lt (maxTemp t) (temp x)) eqn:E.
      - split; [apply le_refl | split; [now apply lt_le | now right]].
      - split; [now apply not_lt_le | split; [apply le_refl | now left]]. }
    destruct Hx as (Hx1 & Hx2 & Hx3).
    split; [eapply le_trans; eauto | split].
    + intros item [<-|Hin]; [eapply le_trans; eauto | now apply H2].
    + destruct H3 as [H3|H3]; [|now right; right].
      rewrite H3. destruct Hx3 as [Hx3|Hx3]; [now left | right; left; congruence].
Qed.


(** *** Counting the conditions *)

Lemma occurrences_cons c x l :
  occurrences c (x :: l) =
  if String.eqb c x then S (occurrences c l) else occurrences c l.
Proof.
  unfold occurrences. simpl. destruct (string_dec x c) as [->|Hne].
  - now rewrite String.eqb_refl.
  - destruct (String.eqb_spec c x); congruence.
Qed.

Lemma occurrences_pos c l : In c l <-> 1 <= occurrences c l.
Proof. unfold occurrences. rewrite (count_occ_In string_dec). lia. Qed.

Lemma tally_item_same t x :
  names_member (main x) = false ->
  (forall v, get (main x) (conditionCounts t) = Some v ->
             exists n, v = Count n /\ 1 <= n) ->
  get (main x) (conditionCounts (tally_item t x)) =
  Some (Count (S (match get (main x) (conditionCounts t) with
                  | Some (Count n) => n
                  | _ => 0
                  end))).
Proof.
  intros Hx Hpos. unfold tally_item, names_member in *. simpl.
  destruct (get (main x) (conditionCounts t)) as [[|n]|] eqn:E.
  - destruct (Hpos _ eq_refl) as (n & [=] & _).
  - destruct (Hpos _ eq_refl) as (n' & [= <-] & Hn).
    destruct (Nat.eqb_spec n 0) as [->|_]; [lia|]. now rewrite get_set_same.
  - destruct (inherit (main x)); try discriminate. now rewrite get_set_same.
Qed.

Lemma tally_item_other t x c :
  c <> main x ->
  get c (conditionCounts (tally_item t x)) = get c (conditionCounts t).
Proof.
  intros Hne. unfold tally_item. simpl.
  destruct (get (main x) (conditionCounts t)) as [[|n]|];
    [| destruct (n =? 0)%nat | destruct (inherit (main x))];
    rewrite ?get_set_other; auto.
Qed.

Lemma tally_item_created t x :
  names_member (main x) = false ->
  created (conditionCounts (tally_item t x))
  = add_key (created (conditionCounts t)) (main x).
Proof.
  intros Hx. unfold tally_item, names_member in *. simpl.
  destruct (get (main x) (conditionCounts t)) as [[|n]|];
    [| destruct (n =? 0)%nat | destruct (inherit (main x)); try discriminate];
    apply created_set_add_key.
Qed.

(** A key of the counts is a label that was met. *)
Lemma tally_item_keys t x k :
  In k (created (conditionCounts (tally_item t x))) ->
  In k (created (conditionCounts t)) \/ k = main x.
Proof.
  assert (Hset : forall v,
            In k (created (set (main x) v (conditionCounts t))) ->
            In k (created (conditionCounts t)) \/ k = main x).
  { intros v. rewrite created_set_add_key. unfold add_key.
    destruct (existsb _ _); auto.
    rewrite in_app_iff. simpl. intuition. }
  unfold tally_item. simpl.
  destruct (get (main x) (conditionCounts t)) as [[|n]|];
    [| destruct (n =? 0)%nat | destruct (inherit (main x))]; eauto.
Qed.

Lemma tally_keys dayData : forall t k,
  In k (created (conditionCounts (fold_left tally_item dayData t))) ->
  In k (created (conditionCounts t)) \/ In k (labels dayData).
Proof.
  induction dayData as [|x l IH]; intros t k H; [now left|].
  cbn [fold_left] in H. apply IH in H. destruct H as [H|H].
  - apply tally_item_keys in H. destruct H as [H| ->]; [now left|].
    right. now left.
  - right. now right.
Qed.

(** The count of a label that names no member of [Object.prototype]:
    the number of its occurrences, whatever the other labels. *)
Lemma tally_counts dayData : forall t c,
  names_member c = false ->
  (forall v, get c (conditionCounts t) = Some v ->
             exists n, v = Count n /\ 1 <= n) ->
  get c (conditionCounts (fold_left tally_item dayData t)) =
  match get c (conditionCounts t) with
  | Some (Count n) => Some (Count (n + occurrences c (labels dayData)))
  | _ => if Nat.eqb (occurrences c (labels dayData)) 0 then None
         else Some (Count (occurrences c (labels dayData)))
  end.
Proof.
  induction dayData as [|x l IH]; intros t c Hc Hpos.
  - simpl. destruct (get c (conditionCounts t)) as [[|n]|] eqn:E; auto.
    + destruct (Hpos _ eq_refl) as (n & [=] & _).
    + now rewrite Nat.add_0_r.
  - cbn [fold_left]. change (labels (x :: l)) with (main x :: labels l).
    rewrite occurrences_cons.
    destruct (String.eqb_spec c (main x)) as [->|Hne].
    + rewrite IH; auto.
      * rewrite tally_item_same by auto.
        destruct (get (main x) (conditionCounts t)) as [[|n]|] eqn:E.
        -- destruct (Hpos _ eq_refl) as (n & [=] & _).
        -- do 2 f_equal. lia.
        -- reflexivity.
      * intros v. rewrite tally_item_same by auto. intros [= <-].
        eexists. split; [reflexivity | lia].
    + rewrite IH; auto.
      * now rewrite tally_item_other.
      * intros v. rewrite tally_item_other by auto. apply Hpos.
Qed.

Lemma tally_created dayData : forall t,
  (forall c, In c (labels dayData) -> names_member c = false) ->
  created (conditionCounts (fold_left tally_item dayData t))
  = fold_left add_key (labels dayData) (created (conditionCounts t)).
Proof.
  induction dayData as [|x l IH]; intros t Hl; [reflexivity|].
  cbn [fold_left]. rewrite IH by (intros c Hc; apply Hl; now right).
  rewrite tally_item_created by (apply Hl; now left). reflexivity.
Qed.

(** The counts of a bucket none of whose labels names a member of
    [Object.prototype]: one key per label, created at the first occurrence
    of the label, holding its number of occurrences. *)
Lemma bucket_counts dayData :
  (forall c, In c (labels dayData) -> names_member c = false) ->
  let C := conditionCounts (fold_left tally_item dayData start) in
  created C = first_seen (labels dayData) /\
  forall c, In c (labels dayData) ->
            get c C = Some (Count (occurrences c (labels dayData))).
Proof.
  intros Hl. cbv zeta. split.
  - rewrite tally_created by assumption. simpl. apply fold_add_key_nil.
  - intros c Hin. rewrite tally_counts; auto; [|discriminate]. simpl.
    apply occurrences_pos in Hin.
    destruct (Nat.eqb_spec (occurrences c (labels dayData)) 0); auto. lia.
Qed.

(** *** Choosing the most common condition *)

Lemma precedes_snoc l a b x : precedes l a b -> precedes (l ++ [x]) a b.
Proof.
  intros (l1 & l2 & l3 & ->). exists l1, l2, (l3 ++ [x]).
  now rewrite <- !app_assoc, <- !app_comm_cons, <- app_assoc.
Qed.

Lemma precedes_last l a x : In a l -> precedes (l ++ [x]) a x.
Proof.
  intros H. apply in_split in H. destruct H as (l1 & l2 & ->).
  exists l1, l2, []. now rewrite <- app_assoc.
Qed.

Lemma pick_fold C (cnt : string -> nat) K :
  (forall k, In k K -> get k C = Some (Count (cnt k)) /\ 1 <= cnt k) ->
  (K = [] /\ fold_left (pick C) K (None, 0) = (None, 0)) \/
  (exists c,
      fold_left (pick C) K (None, 0) = (Some c, cnt c) /\
      In c K /\
      (forall k, In k K -> cnt k <= cnt c) /\
      (forall k, In k K -> cnt k = cnt c -> k <> c -> precedes K c k)).
Proof.
  induction K as [|x K IH] using rev_ind; intros HK; [now left|].
  right. rewrite fold_left_app. simpl.
  destruct (HK x) as [Hx Hx1]; [apply in_app_iff; right; now left|].
  assert (HK' : forall k, In k K -> get k C = Some (Count (cnt k))
                                     /\ 1 <= cnt k)
    by (intros k Hk; apply HK, in_app_iff; now left).
  unfold pick at 1. rewrite Hx.
  destruct (IH HK') as [[-> ->]|(c & -> & Hc & Hmax & Htie)]; simpl.
  - destruct (Nat.ltb_spec 0 (cnt x)); [|lia].
    exists x. repeat split; auto.
    + intros k [<-|[]]. lia.
    + intros k [<-|[]] _ Hne. congruence.
  - destruct (Nat.ltb_spec (cnt c) (cnt x)).
    + exists x. split; auto. split; [apply in_app_iff; right; now left|].
      split.
      * intros k Hk. apply in_app_iff in Hk. destruct Hk as [Hk|[<-|[]]]; auto.
        specialize (Hmax k Hk). lia.
      * intros k Hk E Hne. apply in_app_iff in Hk.
        destruct Hk as [Hk|[<-|[]]]; [|congruence].
        specialize (Hmax k Hk). lia.
    + exists c. split; auto. split; [apply in_app_iff; now left|].
      split.
      * intros k Hk. apply in_app_iff in Hk. destruct Hk as [Hk|[<-|[]]]; auto.
      * intros k Hk E Hne. apply in_app_iff in Hk.
        destruct Hk as [Hk|[<-|[]]].
        -- apply precedes_snoc. auto.
        -- now apply precedes_last.
Qed.

(** The condition of a non-empty bucket: a label with the highest count,
    and among the labels with that count the first one in the enumeration
    order of the counts. *)
Lemma condition_of_bucket d dayData :
  dayData <> [] ->
  (forall c, In c (labels dayData) -> names_member c = false) ->
  exists c,
    condition (day_forecast d dayData) = Some c /\
    In c (labels dayData) /\
    (forall c', occurrences c' (labels dayData)
                <= occurrences c (labels dayData)) /\
    (forall c', In c' (labels dayData) ->
                occurrences c' (labels dayData)
                = occurrences c (labels dayData) ->
                c' <> c ->
                precedes (enumeration_order (first_seen (labels dayData))) c c').
Proof.
  intros Hne Hl. unfold day_forecast. simpl. fold start.
  destruct (bucket_counts dayData Hl) as [Hc Hg]. simpl in Hc, Hg.
  set (C := conditionCounts (fold_left tally_item dayData start)) in *.
  unfold mostCommon. rewrite keys_enumeration, Hc.
  set (K := enumeration_order (first_seen (labels dayData))).
  assert (HK : forall k, In k K <-> In k (labels dayData)).
  { intros k. unfold K. split; intros H.
    - apply first_seen_in.
      eapply Permutation_in; [apply enumeration_order_perm | exact H].
    - apply first_seen_in in H.
      eapply Permutation_in; [symmetry; apply enumeration_order_perm | exact H]. }
  destruct (pick_fold C (fun c => occurrences c (labels dayData)) K)
    as [[HKnil _]|(c & Hfold & Hin & Hmax & Htie)].
  - intros k Hk. apply HK in Hk. split; [now apply Hg | now apply occurrences_pos].
  - exfalso. destruct dayData as [|x l]; [congruence|].
    assert (In (main x) K) by (apply HK; now left).
    rewrite HKnil in H. contradiction.
  - exists c. rewrite Hfold. simpl. split; auto. split; [now apply HK|].
    split.
    + intros c'. destruct (in_dec string_dec c' (labels dayData)) as [Hi|Ho].
      * apply Hmax. now apply HK.
      * assert (occurrences c' (labels dayData) = 0)
          by (unfold occurrences; now apply count_occ_not_In).
        lia.
    + intros c' Hc' E Hne'. apply Htie; auto. now apply HK.
Qed.

(** The search keeps a condition once it has one, and takes one at the
    first key that holds a positive count. *)
Lemma pick_finds C K : forall best,
  (fst best = None -> snd best = 0) ->
  let found := fold_left (pick C) K best in
  (fst found = None -> snd found = 0) /\
  (fst best <> None -> fst found <> None) /\
  (forall k n, In k K -> get k C = Some (Count n) -> 1 <= n ->
               fst found <> None) /\
  (forall c, fst found = Some c -> fst best = Some c \/ In c K).
Proof.
  induction K as [|x K IH]; intros best Hbest; cbv zeta.
  - simpl. repeat split; auto; try (now intros k n []).
  - cbn [fold_left].
    assert (Hstep : (fst (pick C best x) = None -> snd (pick C best x) = 0) /\
                    (fst best <> None -> fst (pick C best x) <> None) /\
                    (forall n, get x C = Some (Count n) -> 1 <= n ->
                               fst (pick C best x) <> None) /\
                    (forall c, fst (pick C best x) = Some c ->
                               fst best = Some c \/ c = x)).
    { unfold pick. destruct (get x C) as [[|n]|].
      - repeat split; auto; discriminate.
      - destruct (Nat.ltb_spec (snd best) n); simpl.
        + repeat split; try discriminate. intros c [= <-]. now right.
        + repeat split; auto.
          intros n' [= <-] Hn E. apply Hbest in E. lia.
      - repeat split; auto; discriminate. }
    destruct Hstep as (S1 & S2 & S3 & S4).
    destruct (IH _ S1) as (I1 & I2 & I3 & I4).
    split; [exact I1|]. split; [auto|]. split.
    + intros k n [<-|Hk] Hg Hn; eauto.
    + intros c Hc. destruct (I4 c Hc) as [H|H]; [|right; now right].
      destruct (S4 c H) as [H'| ->]; [now left | right; now left].
Qed.

(** A bucket with a label that names no member of [Object.prototype] has
    a condition, one of its labels. *)
Lemma condition_of_ordinary d dayData c :
  In c (labels dayData) -> names_member c = false ->
  exists c', condition (day_forecast d dayData) = Some c'
             /\ In c' (labels dayData).
Proof.
  intros Hin Hc. unfold day_forecast. simpl. fold start.
  set (C := conditionCounts (fold_left tally_item dayData start)).
  assert (Hg : get c C = Some (Count (occurrences c (labels dayData)))).
  { unfold C. rewrite tally_counts; auto; [|discriminate]. simpl.
    apply occurrences_pos in Hin.
    destruct (Nat.eqb_spec (occurrences c (labels dayData)) 0); auto. lia. }
  unfold mostCommon.
  destruct (pick_finds C (keys C) (None, 0)) as (_ & _ & Hsome & Hlabel);
    [reflexivity|].
  destruct (fst (fold_left (pick C) (keys C) (None, 0))) as [c'|] eqn:E.
  - exists c'. split; auto. destruct (Hlabel c' eq_refl) as [H|H];
      [discriminate|].
    apply keys_in in H. unfold C in H. apply tally_keys in H.
    destruct H as [[]|H]. exact H.
  - exfalso. eapply Hsome; eauto.
    + apply keys_in. eapply get_some_in; eauto.
    + now apply occurrences_pos.
Qed.


End WeatherFacts.

(* ================================================================== *)
(** ** Properties of the forecast bucketer: the records *)

Module ForecastRecords.
Import JsObject Runtime Weather Spec Aux ObjectFacts WeatherFacts Examples.

(** C6.  The record of a selected day holds the lowest sample temperature
    of the day's bucket as [temp_min] and the highest as [temp_max]; the
    bucket is not empty, and [temp_min <= temp_max]. *)
Theorem temperatures_are_bucket_extremes
    (now : Z) (items : list ForecastSample) (out : list DayForecast)
    (r : DayForecast) :
  processForecastData now items = Ok out ->
  In r out ->
  let dayData := bucket (date r) items in
  dayData <> [] /\
  In (temp_min r) (map temp dayData) /\
  (forall item, In item dayData -> le (temp_min r) (temp item)) /\
  In (temp_max r) (map temp dayData) /\
  (forall item, In item dayData -> le (temp item) (temp_max r)) /\
  le (temp_min r) (temp_max r).
Proof.
  intros H Hr dayData. destruct (record_of_bucket _ _ _ _ H Hr) as [Hne Heq].
  fold dayData in Hne, Heq.
  assert (Emin : temp_min r = minTemp (fold_left tally_item dayData start))
    by (rewrite Heq; reflexivity).
  assert (Emax : temp_max r = maxTemp (fold_left tally_item dayData start))
    by (rewrite Heq; reflexivity).
  destruct (tally_min dayData start) as (_ & Hlow & Hmin).
  destruct (tally_max dayData start) as (_ & Hhigh & Hmax).
  rewrite <- Emin in Hlow, Hmin. rewrite <- Emax in Hhigh, Hmax.
  destruct dayData as [|x l] eqn:E; [congruence|]. rewrite <- E in *.
  assert (Hx : In x dayData) by (rewrite E; now left).
  split; [rewrite E; discriminate|].
  split; [|split; [exact Hlow | split; [|split; [exact Hhigh|]]]].
  - destruct Hmin as [Hmin|Hmin]; auto. simpl in Hmin.
    pose proof (Hlow x Hx) as Hle. rewrite Hmin in Hle.
    apply le_Infinity in Hle. rewrite Hmin, <- Hle. now apply in_map.
  - destruct Hmax as [Hmax|Hmax]; auto. simpl in Hmax.
    pose proof (Hhigh x Hx) as Hle. rewrite Hmax in Hle.
    apply le_NegInfinity in Hle. rewrite Hmax, <- Hle. now apply in_map.
  - eapply le_trans; [apply (Hlow x Hx) | apply (Hhigh x Hx)].
Qed.

Lemma temperatures_are_bucket_extremes_witness :
  let r := {| date := "2025-11-04"; temp_min := Finite (inject_Z 60);
              temp_max := Finite (inject_Z 65); condition := Some "Rain" |} in
  let dayData := bucket "2025-11-04" three_days in
  processForecastData (midnight * 1000) three_days =
  Ok [ {| date := "2025-11-03"; temp_min := Finite (inject_Z 70);
          temp_max := Finite (inject_Z 80); condition := Some "Clear" |};
       r;
       {| date := "2025-11-05"; temp_min := Finite (inject_Z 90);
          temp_max := Finite (inject_Z 95); condition := Some "Clear" |} ] /\
  dayData <> [] /\
  In (temp_min r) (map temp dayData) /\
  (forall item, In item dayData -> le (temp_min r) (temp item)) /\
  In (temp_max r) (map temp dayData) /\
  (forall item, In item dayData -> le (temp item) (temp_max r)) /\
  le (temp_min r) (temp_max r).
Proof.
  intros r dayData.
  assert (H : processForecastData (midnight * 1000) three_days =
    Ok [ {| date := "2025-11-03"; temp_min := Finite (inject_Z 70);
            temp_max := Finite (inject_Z 80); condition := Some "Clear" |};
         r;
         {| date := "2025-11-05"; temp_min := Finite (inject_Z 90);
            temp_max := Finite (inject_Z 95); condition := Some "Clear" |} ])
    by (vm_compute; reflexivity).
  split; [exact H|].
  exact (temperatures_are_bucket_extremes _ _ _ r H (or_intror (or_introl eq_refl))).
Defined.

(** C9, at the failing input.  A day whose only sample is labelled
    ["constructor"] gets the condition null.  The count object inherits a
    function under that name: the count of the label becomes [NaN], which
    exceeds no maximum, and the most common condition of the bucket is never
    chosen. *)
Theorem inherited_label_leaves_condition_null :
  processForecastData (midnight * 1000) constructor_day =
  Ok [ {| date := "2025-11-03"; temp_min := Finite (inject_Z 50);
          temp_max := Finite (inject_Z 50); condition := None |} ].
Proof. vm_compute; reflexivity. Qed.

(** C3, refuted as stated.  When "Clear" and "Rain" are met twice each
    and "Rain" is the first to be met twice, the record still says
    "Clear", the label that was met first. *)
Lemma tie_goes_to_first_met_label :
  exists r,
    processForecastData (midnight * 1000) tied_day = Ok [r] /\
    condition r = Some "Clear" /\
    first_to_reach_max (labels (bucket (date r) tied_day)) = Some "Rain" /\
    condition r <> first_to_reach_max (labels (bucket (date r) tied_day)).
Proof.
  eexists. split; [vm_compute; reflexivity|].
  split; [reflexivity|]. split; [vm_compute; reflexivity|].
  vm_compute. discriminate.
Qed.

(** Rain, clear sky, rain does yield "Rain". *)
Example rain_clear_rain :
  condition (day_forecast "2025-11-03" rainy_day) = Some "Rain" /\
  first_to_reach_max (labels rainy_day) = Some "Rain".
Proof. split; vm_compute; reflexivity. Qed.

(** C3, amended.  In a bucket none of whose labels names a member of
    [Object.prototype], the condition of the record is a label with the
    highest number of occurrences; among the labels with that number it is
    the first in the enumeration order of the count object, which, when no
    label is an array index, is the order in which the labels are first met
    in the bucket. *)
Theorem condition_is_first_listed_most_frequent
    (now : Z) (items : list ForecastSample) (out : list DayForecast)
    (r : DayForecast) :
  processForecastData now items = Ok out ->
  In r out ->
  let met := labels (bucket (date r) items) in
  (forall c', In c' met -> names_member c' = false) ->
  (exists c,
      condition r = Some c /\
      In c met /\
      (forall c', occurrences c' met <= occurrences c met) /\
      (forall c', In c' met -> occurrences c' met = occurrences c met ->
                  c' <> c ->
                  precedes (enumeration_order (first_seen met)) c c')) /\
  ((forall c', In c' met -> is_index c' = false) ->
   enumeration_order (first_seen met) = first_seen met).
Proof.
  intros H Hr met Hmet. destruct (record_of_bucket _ _ _ _ H Hr) as [Hne Heq].
  split.
  - destruct (condition_of_bucket (date r) _ Hne Hmet) as (c & Hc & Hrest).
    exists c. split; [now rewrite Heq | exact Hrest].
  - intros Hplain. apply enumeration_order_plain.
    intros k Hk. apply Hplain. now apply first_seen_in.
Qed.

Lemma condition_is_first_listed_most_frequent_witness :
  let r := {| date := "2025-11-03"; temp_min := Finite (inject_Z 49);
              temp_max := Finite (inject_Z 52); condition := Some "Clear" |} in
  let met := labels (bucket "2025-11-03" tied_day) in
  processForecastData (midnight * 1000) tied_day = Ok [r] /\
  (forall c', In c' met -> names_member c' = false) /\
  (exists c,
      Some "Clear" = Some c /\
      In c met /\
      (forall c', occurrences c' met <= occurrences c met) /\
      (forall c', In c' met -> occurrences c' met = occurrences c met ->
                  c' <> c ->
                  precedes (enumeration_order (first_seen met)) c c')) /\
  ((forall c', In c' met -> is_index c' = false) ->
   enumeration_order (first_seen met) = first_seen met).
Proof.
  intros r met.
  assert (H : processForecastData (midnight * 1000) tied_day = Ok [r])
    by (vm_compute; reflexivity).
  assert (Hmet : forall c', In c' met -> names_member c' = false).
  { intros c' Hc'. vm_compute in Hc'.
    repeat (destruct Hc' as [<-|Hc']; [reflexivity|]). contradiction. }
  split; [exact H|]. split; [exact Hmet|].
  exact (condition_is_first_listed_most_frequent _ _ _ r H (or_introl eq_refl)
           Hmet).
Defined.

End ForecastRecords.

(* ================================================================== *)
(** ** Dates: the order of the date strings is the order of the days *)

Module DateFacts.
Import JsString JsObject Runtime Weather Spec Aux JsDate.
Import ObjectFacts LoopFacts WeatherFacts.
Local Open Scope Z_scope.

(** *** Zero-padded numbers compare like the numbers *)

Lemma append_assoc (a b c : string) : ((a ++ b) ++ c = a ++ (b ++ c))%string.
Proof. induction a; simpl; congruence. Qed.

Lemma append_nil_r (a : string) : (a ++ "")%string = a.
Proof. induction a; simpl; congruence. Qed.

Lemma digit_char_compare x y :
  0 <= x <= 9 -> 0 <= y <= 9 ->
  Ascii.compare (digit_char x) (digit_char y) = (x ?= y).
Proof.
  intros Hx Hy. unfold Ascii.compare, digit_char.
  rewrite !N_ascii_embedding by lia.
  rewrite <- N2Z.inj_compare, !N2Z.inj_add, !Z2N.id by lia.
  apply Z.add_compare_mono_l.
Qed.

Lemma pad_compare w : forall a b s t,
  0 <= a < 10 ^ Z.of_nat w -> 0 <= b < 10 ^ Z.of_nat w ->
  String.compare (pad w a ++ s) (pad w b ++ t) =
  match a ?= b with Eq => String.compare s t | c => c end.
Proof.
  induction w as [|w IH]; intros a b s t Ha Hb.
  - simpl in *. assert (a = 0) by lia. assert (b = 0) by lia. subst.
    reflexivity.
  - rewrite Nat2Z.inj_succ, Z.pow_succ_r in Ha, Hb by lia.
    cbn [pad]. rewrite !append_assoc. cbn [append].
    rewrite IH by (Z.div_mod_to_equations; lia).
    cbn [String.compare].
    rewrite digit_char_compare by (Z.div_mod_to_equations; lia).
    destruct (Z.compare_spec (a / 10) (b / 10)),
           (Z.compare_spec (a mod 10) (b mod 10)),
           (Z.compare_spec a b); try reflexivity;
    exfalso; Z.div_mod_to_equations; lia.
Qed.

Lemma civil_of_doe_eq doe :
  civil_of_doe doe =
  (if month_of (mp_of (doy_of doe)) <=? 2 then yoe_of doe + 1 else yoe_of doe,
   month_of (mp_of (doy_of doe)), dom_of (doy_of doe)).
Proof. reflexivity. Qed.

Lemma yoe_bounds doe : 0 <= doe <= 146096 -> 0 <= yoe_of doe <= 399.
Proof. intros H. unfold yoe_of. Z.div_mod_to_equations; lia. Qed.

Lemma doy_bounds doe : 0 <= doe <= 146096 -> 0 <= doy_of doe <= 365.
Proof. intros H. unfold doy_of, yoe_of. Z.div_mod_to_equations; lia. Qed.

Lemma yoe_mono a b : 0 <= a -> a <= b -> b <= 146096 -> yoe_of a <= yoe_of b.
Proof. intros. unfold yoe_of. Z.div_mod_to_equations; lia. Qed.

Lemma mp_bounds doy : 0 <= doy <= 365 -> 0 <= mp_of doy <= 11.
Proof. intros. unfold mp_of. Z.div_mod_to_equations; lia. Qed.

Lemma dom_bounds doy : 0 <= doy <= 365 -> 1 <= dom_of doy <= 31.
Proof. intros. unfold dom_of, mp_of. Z.div_mod_to_equations; lia. Qed.

Lemma mp_mono a b : 0 <= a -> a <= b -> mp_of a <= mp_of b.
Proof. intros. unfold mp_of. Z.div_mod_to_equations; lia. Qed.

Lemma month_bounds mp : 0 <= mp <= 11 -> 1 <= month_of mp <= 12.
Proof. intros. unfold month_of. destruct (Z.ltb_spec mp 10); lia. Qed.

Lemma md_code_bounds doy : 0 <= doy <= 365 -> 301 <= md_code doy <= 10229.
Proof.
  intros H. pose proof (mp_bounds doy H). pose proof (dom_bounds doy H).
  unfold md_code, month_of.
  destruct (Z.ltb_spec (mp_of doy) 10).
  - destruct (Z.leb_spec (mp_of doy + 3) 2); lia.
  - destruct (Z.leb_spec (mp_of doy - 9) 2); try lia.
    assert (mp_of doy = 11 -> dom_of doy <= 29).
    { unfold dom_of. intros ->. unfold mp_of in *. Z.div_mod_to_equations; lia. }
    lia.
Qed.

Lemma md_code_mono a b : 0 <= a -> a < b -> b <= 365 -> md_code a < md_code b.
Proof.
  intros Ha Hab Hb.
  pose proof (mp_bounds a ltac:(lia)). pose proof (mp_bounds b ltac:(lia)).
  pose proof (dom_bounds a ltac:(lia)). pose proof (dom_bounds b ltac:(lia)).
  pose proof (mp_mono a b ltac:(lia) ltac:(lia)).
  destruct (Z.eq_dec (mp_of a) (mp_of b)) as [E|E].
  - unfold md_code. rewrite E. unfold dom_of. rewrite E. lia.
  - unfold md_code, month_of.
    destruct (Z.ltb_spec (mp_of a) 10), (Z.ltb_spec (mp_of b) 10);
    repeat match goal with
           | |- context [?x <=? 2] => destruct (Z.leb_spec x 2)
           end; lia.
Qed.

Lemma doe_code_mono a b : 0 <= a -> a < b -> b <= 146096 -> doe_code a < doe_code b.
Proof.
  intros Ha Hab Hb. unfold doe_code.
  pose proof (yoe_mono a b ltac:(lia) ltac:(lia) ltac:(lia)).
  pose proof (doy_bounds a ltac:(lia)). pose proof (doy_bounds b ltac:(lia)).
  pose proof (md_code_bounds (doy_of a) ltac:(lia)).
  pose proof (md_code_bounds (doy_of b) ltac:(lia)).
  destruct (Z.eq_dec (yoe_of a) (yoe_of b)) as [E|E].
  - assert (doy_of a < doy_of b) by (unfold doy_of; rewrite E; lia).
    pose proof (md_code_mono (doy_of a) (doy_of b) ltac:(lia) ltac:(lia) ltac:(lia)).
    lia.
  - lia.
Qed.

Lemma doe_code_bounds doe : 0 <= doe <= 146096 -> 301 <= doe_code doe <= 4000229.
Proof.
  intros H. unfold doe_code.
  pose proof (yoe_bounds doe H). pose proof (doy_bounds doe H).
  pose proof (md_code_bounds (doy_of doe) ltac:(lia)).
  assert (yoe_of doe = 399 -> md_code (doy_of doe) <= 10229) by lia.
  lia.
Qed.

Lemma date_code_eq day :
  date_code day =
  4000000 * ((day + 719468) / 146097) + doe_code ((day + 719468) mod 146097).
Proof.
  unfold date_code, civil_from_days. rewrite civil_of_doe_eq.
  cbv beta iota zeta. unfold doe_code, md_code.
  destruct (month_of (mp_of (doy_of ((day + 719468) mod 146097))) <=? 2); lia.
Qed.

Lemma date_code_mono a b : a < b -> date_code a < date_code b.
Proof.
  intros Hab. rewrite !date_code_eq.
  pose proof (Z.mod_pos_bound (a + 719468) 146097 ltac:(lia)).
  pose proof (Z.mod_pos_bound (b + 719468) 146097 ltac:(lia)).
  pose proof (doe_code_bounds ((a + 719468) mod 146097) ltac:(lia)).
  pose proof (doe_code_bounds ((b + 719468) mod 146097) ltac:(lia)).
  destruct (Z.eq_dec ((a + 719468) / 146097) ((b + 719468) / 146097)) as [E|E].
  - rewrite E.
    assert ((a + 719468) mod 146097 < (b + 719468) mod 146097)
      by (Z.div_mod_to_equations; lia).
    pose proof (doe_code_mono ((a + 719468) mod 146097)
                  ((b + 719468) mod 146097) ltac:(lia) ltac:(lia) ltac:(lia)).
    lia.
  - assert ((a + 719468) / 146097 < (b + 719468) / 146097)
      by (Z.div_mod_to_equations; lia).
    lia.
Qed.

Lemma civil_fields day :
  exists y m d,
    civil_from_days day = (y, m, d) /\
    1 <= m <= 12 /\ 1 <= d <= 31 /\ date_code day = y * 10000 + m * 100 + d.
Proof.
  unfold date_code, civil_from_days. rewrite civil_of_doe_eq.
  cbv beta iota zeta.
  pose proof (Z.mod_pos_bound (day + 719468) 146097 ltac:(lia)) as Hd.
  pose proof (doy_bounds ((day + 719468) mod 146097) ltac:(lia)) as Hy.
  do 3 eexists. split; [reflexivity|].
  split; [apply month_bounds, mp_bounds, Hy|].
  split; [apply dom_bounds, Hy | reflexivity].
Qed.

Lemma year_in_range day y m d :
  in_range day -> civil_from_days day = (y, m, d) -> 0 <= y <= 9999.
Proof.
  intros [Hlo Hhi] E.
  destruct (civil_fields day) as (y' & m' & d' & E' & Hm & Hd & Hc).
  rewrite E in E'. injection E' as <- <- <-.
  assert (date_code (-719528) <= date_code day).
  { destruct (Z.eq_dec (-719528) day) as [->|]; [lia|].
    apply Z.lt_le_incl, date_code_mono. lia. }
  assert (date_code day <= date_code 2932896).
  { destruct (Z.eq_dec day 2932896) as [->|]; [lia|].
    apply Z.lt_le_incl, date_code_mono. lia. }
  change (date_code (-719528)) with 101 in *.
  change (date_code 2932896) with 99991231 in *.
  lia.
Qed.

Lemma iso_date_compare a b :
  in_range a -> in_range b ->
  String.compare (iso_date a) (iso_date b) = (a ?= b).
Proof.
  intros Ha Hb.
  destruct (civil_fields a) as (ya & ma & da & Ea & Hma & Hda & Hca).
  destruct (civil_fields b) as (yb & mb & db & Eb & Hmb & Hdb & Hcb).
  pose proof (year_in_range _ _ _ _ Ha Ea) as Hya.
  pose proof (year_in_range _ _ _ _ Hb Eb) as Hyb.
  unfold iso_date. rewrite Ea, Eb. unfold iso_year.
  replace ((0 <=? ya) && (ya <=? 9999)) with true
    by (symmetry; apply andb_true_iff; split; apply Z.leb_le; lia).
  replace ((0 <=? yb) && (yb <=? 9999)) with true
    by (symmetry; apply andb_true_iff; split; apply Z.leb_le; lia).
  rewrite pad_compare by (simpl; lia).
  cbn [append String.compare]. change (Ascii.compare "-" "-") with Eq. cbv iota.
  rewrite pad_compare by (simpl; lia).
  cbn [append String.compare]. change (Ascii.compare "-" "-") with Eq. cbv iota.
  rewrite <- (append_nil_r (pad 2 da)), <- (append_nil_r (pad 2 db)).
  rewrite pad_compare by (simpl; lia). cbn [String.compare].
  assert (Hmono : forall x y, x < y -> date_code x < date_code y)
    by apply date_code_mono.
  destruct (Z.compare_spec a b) as [->|Hlt|Hgt].
  - rewrite Ea in Eb. injection Eb as <- <- <-.
    now rewrite !Z.compare_refl.
  - apply Hmono in Hlt.
    destruct (Z.compare_spec ya yb), (Z.compare_spec ma mb),
             (Z.compare_spec da db); try reflexivity; exfalso; lia.
  - apply Hmono in Hgt.
    destruct (Z.compare_spec ya yb), (Z.compare_spec ma mb),
             (Z.compare_spec da db); try reflexivity; exfalso; lia.
Qed.

(** *** Sorting date strings is sorting days *)

Lemma iso_date_lt a b :
  in_range a -> in_range b -> JsString.lt (iso_date a) (iso_date b) = (a <? b).
Proof.
  intros Ha Hb. unfold JsString.lt, String.ltb, Z.ltb.
  now rewrite iso_date_compare.
Qed.

Lemma compare_same s : String.compare s s = Eq.
Proof.
  induction s as [|c s IH]; simpl; auto.
  unfold Ascii.compare. now rewrite N.compare_refl.
Qed.

Lemma iso_date_inj a b :
  in_range a -> in_range b -> iso_date a = iso_date b -> a = b.
Proof.
  intros Ha Hb E. apply Z.compare_eq. rewrite <- iso_date_compare by assumption.
  rewrite E. apply compare_same.
Qed.

Lemma insert_day_perm x l : Permutation (insert_day x l) (x :: l).
Proof.
  induction l as [|y l IH]; simpl; auto.
  destruct (y <? x); auto. rewrite IH. apply perm_swap.
Qed.

Lemma sort_days_perm l : Permutation (sort_days l) l.
Proof.
  induction l as [|x l IH]; simpl; auto.
  rewrite insert_day_perm. now constructor.
Qed.

Lemma insert_day_sorted x l :
  StronglySorted Z.lt l -> ~ In x l -> StronglySorted Z.lt (insert_day x l).
Proof.
  induction 1 as [|y l Hl IH Hy]; intros Hx; simpl.
  - repeat constructor.
  - destruct (Z.ltb_spec y x).
    + constructor; [apply IH; intros Hin; apply Hx; now right|].
      eapply Permutation_Forall; [symmetry; apply insert_day_perm|].
      constructor; auto.
    + assert (x < y) by (assert (x <> y) by (intros ->; apply Hx; now left); lia).
      constructor; [now constructor|]. constructor; auto.
      eapply Forall_impl; [|exact Hy]. simpl. intros; lia.
Qed.

Lemma sort_days_sorted l : NoDup l -> StronglySorted Z.lt (sort_days l).
Proof.
  induction 1 as [|x l Hx Hl IH]; simpl; [constructor|].
  apply insert_day_sorted; auto.
  intros Hin. apply Hx. eapply Permutation_in; [apply sort_days_perm | exact Hin].
Qed.

Lemma insert_sorted_iso x l :
  in_range x -> Forall in_range l ->
  insert_sorted (iso_date x) (map iso_date l) = map iso_date (insert_day x l).
Proof.
  intros Hx. induction 1 as [|y l Hy Hl IH]; simpl; auto.
  rewrite iso_date_lt by assumption.
  destruct (y <? x); simpl; [now rewrite IH | reflexivity].
Qed.

Lemma sort_iso l :
  Forall in_range l -> sort (map iso_date l) = map iso_date (sort_days l).
Proof.
  induction 1 as [|x l Hx Hl IH]; simpl; auto.
  rewrite IH. apply insert_sorted_iso; auto.
  eapply Permutation_Forall; [symmetry; apply sort_days_perm | exact Hl].
Qed.

Lemma dates_are_iso l :
  Forall (fun s => exists d, in_range d /\ s = iso_date d) l ->
  exists D, l = map iso_date D /\ Forall in_range D.
Proof.
  induction 1 as [|s l (d & Hd & ->) Hl (D & -> & HD)].
  - exists []. auto.
  - exists (d :: D). auto.
Qed.

Lemma four_digit_year_day t : four_digit_year t -> in_range (Day t).
Proof.
  unfold four_digit_year, in_range, Day, msPerDay. intros H.
  Z.div_mod_to_equations; lia.
Qed.

Lemma four_digit_year_date t :
  four_digit_year t -> toISODate t = Ok (iso_date (Day t)).
Proof.
  unfold four_digit_year, toISODate, valid_time. intros H.
  replace ((-8640000000000000 <=? t) && (t <=? 8640000000000000)) with true; auto.
  symmetry. apply andb_true_iff. split; apply Z.leb_le; lia.
Qed.

Lemma grouping_total items : forall G,
  Forall (fun item => exists d, dateString_of item = Ok d) items ->
  exists G', for_of group_item items G = Ok G'.
Proof.
  induction items as [|x items IH]; intros G H; simpl; eauto.
  inversion H as [|? ? [d Hd] Hrest]; subst.
  destruct (group_item_total G x d Hd) as [G1 HG1]. rewrite HG1. simpl.
  now apply IH.
Qed.

End DateFacts.

(* ================================================================== *)
(** ** Properties of the forecast bucketer: the selected days *)

Module ForecastDays.
Import JsString JsObject Runtime Weather Spec Aux JsDate.
Import ObjectFacts LoopFacts WeatherFacts DateFacts Examples.
Local Open Scope Z_scope.

(** C5, refuted as stated.  A sample of the year 10000 falls on a UTC date
    later than today's, yet no record is returned for it: its date string
    begins with a plus sign, which sorts before every digit. *)
Lemma far_future_day_is_dropped :
  processForecastData (midnight * 1000) year_10000 = Ok [] /\
  (forall item, In item year_10000 -> Day (midnight * 1000) <= utc_day item) /\
  ~ (exists out days,
        processForecastData (midnight * 1000) year_10000 = Ok out /\
        (forall d, In d days <->
                   Day (midnight * 1000) <= d /\
                   exists item, In item year_10000 /\ utc_day item = d) /\
        map date out = map iso_date (firstn 4 days)).
Proof.
  assert (H : processForecastData (midnight * 1000) year_10000 = Ok [])
    by (vm_compute; reflexivity).
  assert (Hday : forall item, In item year_10000 ->
            Day (midnight * 1000) <= utc_day item).
  { intros item [<-|[]]. vm_compute. discriminate. }
  split; [exact H | split; [exact Hday|]].
  intros (out & days & Hout & Hdays & Hdates).
  rewrite H in Hout. injection Hout as <-.
  destruct days as [|d days].
  - destruct (Hdays (utc_day (sample 69900048 70 "Clear"))) as [_ Hin].
    apply Hin. split; [apply Hday; now left|].
    eexists. split; [now left | reflexivity].
  - discriminate Hdates.
Qed.

(** C5, amended.  For samples and a time of call within the years 0000 to
    9999, the bucketer returns one record for each of the earliest four, or
    fewer, distinct UTC dates of the samples that are today's UTC date or
    later, in ascending order of date; with fewer than four such dates it
    returns as many records as there are, and with no sample it returns
    the empty sequence. *)
Theorem next_four_days (now : Z) (items : list ForecastSample) :
  four_digit_year now ->
  (forall item, In item items -> four_digit_year (dt item * 1000)) ->
  exists out days,
    processForecastData now items = Ok out /\
    StronglySorted Z.lt days /\
    (forall d, In d days <->
               Day now <= d /\ exists item, In item items /\ utc_day item = d) /\
    map date out = map iso_date (firstn 4 days) /\
    List.length out = Nat.min 4 (List.length days) /\
    (items = [] -> out = []).
Proof.
  intros Hnow Hitems.
  assert (Hds : forall item, In item items ->
            dateString_of item = Ok (iso_date (utc_day item))
            /\ in_range (utc_day item)).
  { intros item Hin. specialize (Hitems item Hin). split.
    - now apply four_digit_year_date.
    - now apply four_digit_year_day. }
  destruct (grouping_total items empty) as [G HG].
  { apply Forall_forall. intros item Hin. destruct (Hds item Hin). eauto. }
  pose proof (four_digit_year_date now Hnow) as Ht.
  pose proof (four_digit_year_day now Hnow) as Hrnow.
  pose proof (process_eq _ _ _ _ HG Ht) as Hout.
  set (today := iso_date (Day now)) in *.
  destruct (grouping_ok _ _ _ HG) as (_ & Hcreated & _).
  simpl in Hcreated. rewrite fold_add_key_nil in Hcreated.
  assert (Hkeys : forall k, In k (keys G) <->
            exists item, In item items /\ k = iso_date (utc_day item)).
  { intros k. rewrite keys_in, Hcreated, first_seen_in, in_map_iff.
    split; intros (item & H1 & H2).
    - exists item. split; auto. destruct (Hds item H2) as [E _].
      unfold date_key in H1. rewrite E in H1. congruence.
    - exists item. split; auto. destruct (Hds item H1) as [E _].
      unfold date_key. rewrite E. congruence. }
  set (F := filter (fun date => JsString.ge date today) (keys G)).
  assert (HF : Forall (fun s => exists d, in_range d /\ s = iso_date d) F).
  { apply Forall_forall. intros s Hs. apply filter_In in Hs.
    destruct Hs as [Hs _]. apply Hkeys in Hs. destruct Hs as (item & Hin & ->).
    exists (utc_day item). split; auto. now apply Hds. }
  destruct (dates_are_iso F HF) as (D & HD & HDr).
  assert (HndF : NoDup F).
  { apply NoDup_filter. rewrite keys_enumeration, Hcreated.
    apply enumeration_order_nodup, first_seen_nodup. }
  assert (HndD : NoDup D) by (rewrite HD in HndF; now apply NoDup_map_inv in HndF).
  assert (Hsel : selected G today = map iso_date (firstn 4 (sort_days D))).
  { unfold selected. fold F. rewrite HD, sort_iso by assumption.
    apply firstn_map. }
  assert (Hdates : map date (map (fun d => day_forecast d (bucket d items))
                                 (selected G today))
                   = map iso_date (firstn 4 (sort_days D))).
  { rewrite map_map. simpl. rewrite map_id. exact Hsel. }
  exists (map (fun d => day_forecast d (bucket d items)) (selected G today)),
         (sort_days D).
  split; [exact Hout|]. split; [now apply sort_days_sorted|].
  split; [|split; [exact Hdates | split]].
  - intros d. split.
    + intros Hd. apply (Permutation_in _ (sort_days_perm D)) in Hd.
      assert (Hrd : in_range d) by (rewrite Forall_forall in HDr; auto).
      assert (HdF : In (iso_date d) F) by (rewrite HD; now apply in_map).
      apply filter_In in HdF. destruct HdF as [Hk Hge].
      unfold JsString.ge in Hge. fold (JsString.lt (iso_date d) today) in Hge.
      unfold today in Hge. rewrite iso_date_lt in Hge by assumption.
      apply negb_true_iff, Z.ltb_ge in Hge. split; auto.
      apply Hkeys in Hk. destruct Hk as (item & Hin & E).
      exists item. split; auto. symmetry. apply iso_date_inj; auto.
      now apply Hds.
    + intros (Hge & item & Hin & <-).
      destruct (Hds item Hin) as [_ Hr].
      assert (HdF : In (iso_date (utc_day item)) F).
      { apply filter_In. split; [apply Hkeys; eauto|].
        unfold JsString.ge. fold (JsString.lt (iso_date (utc_day item)) today).
        unfold today. rewrite iso_date_lt by assumption.
        apply negb_true_iff, Z.ltb_ge. exact Hge. }
      rewrite HD in HdF. apply in_map_iff in HdF.
      destruct HdF as (d' & E & Hd').
      assert (d' = utc_day item)
        by (apply iso_date_inj; auto; rewrite Forall_forall in HDr; auto).
      subst d'. eapply Permutation_in; [symmetry; apply sort_days_perm | exact Hd'].
  - rewrite <- (length_map date), Hdates, length_map. apply length_firstn.
  - intros ->. simpl in HG. injection HG as <-. reflexivity.
Qed.

Lemma next_four_days_witness :
  four_digit_year (midnight * 1000) /\
  (forall item, In item three_days -> four_digit_year (dt item * 1000)) /\
  exists out days,
    processForecastData (midnight * 1000) three_days = Ok out /\
    StronglySorted Z.lt days /\
    (forall d, In d days <->
               Day (midnight * 1000) <= d /\
               exists item, In item three_days /\ utc_day item = d) /\
    map date out = map iso_date (firstn 4 days) /\
    List.length out = Nat.min 4 (List.length days) /\
    (three_days = [] -> out = []).
Proof.
  assert (Hnow : four_digit_year (midnight * 1000))
    by (unfold four_digit_year, midnight; lia).
  assert (Hitems : forall item, In item three_days ->
            four_digit_year (dt item * 1000)).
  { intros item Hin. simpl in Hin.
    repeat (destruct Hin as [<-|Hin];
            [unfold four_digit_year, sample, midnight; simpl; lia|]).
    contradiction. }
  split; [exact Hnow | split; [exact Hitems|]].
  exact (next_four_days (midnight * 1000) three_days Hnow Hitems).
Defined.

End ForecastDays.


(* ================================================================== *)
(** ** Further properties: what the weather component shows *)

Module ViewProperties.
Import JsString WeatherView Notions.
Local Open Scope Z_scope.

(** X1.  For a day of the month from 1 to 31, [getOrdinalSuffix] gives the
    English ending: "st" for 1, 21 and 31, "nd" for 2 and 22, "rd" for 3 and
    23, and "th" for every other day, 11, 12 and 13 among them. *)
Theorem ordinal_suffix_of_month_day (day : Z) :
  1 <= day <= 31 ->
  getOrdinalSuffix day =
  if (day =? 1) || (day =? 21) || (day =? 31) then "st"
  else if (day =? 2) || (day =? 22) then "nd"
  else if (day =? 3) || (day =? 23) then "rd"
  else "th".
Proof.
  intros H.
  assert (E : exists n, day = Z.of_nat n /\ (n <= 31)%nat)
    by (exists (Z.to_nat day); lia).
  destruct E as (n & -> & Hn).
  do 32 (destruct n as [|n]; [reflexivity|]). lia.
Qed.

Lemma ordinal_suffix_of_month_day_witness :
  1 <= 22 <= 31 /\ getOrdinalSuffix 22 = "nd".
Proof.
  split; [lia|]. exact (ordinal_suffix_of_month_day 22 ltac:(lia)).
Defined.

(** X2.  The chart has a point for each of the first eight hours, in
    order.  Each point is labelled with an hour from 1 to 12 and with "AM"
    before noon and "PM" from noon on; the hour agrees with the hour of the
    day modulo 12, except for midnight, which is labelled 1 like the hour
    after it. *)
Theorem chart_hours_on_a_dial
    (getHours : Z -> Z) (percent : Weather.number -> string)
    (hourly : list HourData) :
  (forall t, 0 <= getHours t <= 23) ->
  List.length (next8Hours getHours percent hourly)
  = Nat.min 8 (List.length hourly) /\
  Forall2
    (fun hourData point =>
       let hour := getHours (dt hourData * 1000) in
       exists dial,
         time point = (JsNumber.toString dial ++ " " ++ period point)%string /\
         1 <= dial <= 12 /\
         (1 <= hour -> dial mod 12 = hour mod 12) /\
         (hour = 0 -> dial = 1) /\
         period point = (if hour <? 12 then "AM" else "PM") /\
         pop_text point = percent (pop hourData))
    (firstn 8 hourly) (next8Hours getHours percent hourly).
Proof.
  intros Hrange. unfold next8Hours. split.
  - rewrite length_map. apply length_firstn.
  - induction (firstn 8 hourly) as [|h l IH]; simpl; constructor; auto.
    unfold hour_point. specialize (Hrange (dt h * 1000)).
    set (hour := getHours (dt h * 1000)) in *.
    destruct (Z.ltb_spec 12 hour); [|destruct (Z.eqb_spec hour 12);
      [|destruct (Z.ltb_spec hour 1)]]; simpl.
    + exists (hour - 12). destruct (Z.ltb_spec hour 12); [lia|].
      repeat split; try lia.
      intros _. rewrite <- (Z.mod_add (hour - 12) 1 12) by lia. f_equal. lia.
    + exists hour. destruct (Z.ltb_spec hour 12); [lia|]. repeat split; lia.
    + exists 1. destruct (Z.ltb_spec hour 12); [|lia]. repeat split; lia.
    + exists hour. destruct (Z.ltb_spec hour 12); [|lia]. repeat split; lia.
Qed.

Lemma chart_hours_on_a_dial_witness :
  (forall t, 0 <= utc_hours t <= 23) /\
  List.length (next8Hours utc_hours (fun _ => "0") late_hours)
  = Nat.min 8 (List.length late_hours) /\
  Forall2
    (fun hourData point =>
       let hour := utc_hours (dt hourData * 1000) in
       exists dial,
         time point = (JsNumber.toString dial ++ " " ++ period point)%string /\
         1 <= dial <= 12 /\
         (1 <= hour -> dial mod 12 = hour mod 12) /\
         (hour = 0 -> dial = 1) /\
         period point = (if hour <? 12 then "AM" else "PM") /\
         pop_text point = "0")
    (firstn 8 late_hours) (next8Hours utc_hours (fun _ => "0") late_hours).
Proof.
  assert (H : forall t, 0 <= utc_hours t <= 23).
  { intros t. unfold utc_hours.
    pose proof (Z.mod_pos_bound (t / 3600000) 24 ltac:(lia)). lia. }
  split; [exact H|].
  exact (chart_hours_on_a_dial utc_hours (fun _ => "0") late_hours H).
Defined.

(** Midnight and one o'clock carry the same label. *)
Example midnight_reads_one :
  map time (next8Hours utc_hours (fun _ => "0") late_hours)
  = ["11 PM"; "1 AM"; "1 AM"].
Proof. reflexivity. Qed.


Lemma or_else_not_empty found fallback :
  fallback <> "" -> or_else found fallback <> "".
Proof.
  intros H. unfold or_else. destruct found as [url|]; auto.
  unfold truthy. destruct (String.eqb_spec url ""); simpl; auto.
Qed.

Lemma or_else_from found fallback :
  or_else found fallback = fallback \/ found = Some (or_else found fallback).
Proof.
  unfold or_else. destruct found as [url|]; auto.
  destruct (truthy url); auto.
Qed.

Lemma scene_of_in weatherId table url :
  scene_of weatherId table = Some url -> In url (map snd table).
Proof.
  induction table as [|[id u] table IH]; simpl; [discriminate|].
  destruct (weatherId =? id); [intros [= ->]; now left | auto].
Qed.

(** X3.  Whatever the condition code and the time, the scene address is
    not empty: codes without a scene, and codes whose scene is the empty
    string, fall back on a scene. *)
Theorem scene_is_never_empty (weatherId sunrise sunset utcTime : Z) :
  splineSceneUrl weatherId sunrise sunset utcTime <> "".
Proof.
  unfold splineSceneUrl.
  destruct ((sunrise <=? utcTime) && (utcTime <? sunset));
    [|destruct ((utcTime <=? sunrise) && (sunset <=? utcTime))];
    try apply or_else_not_empty; discriminate.
Qed.

(** X4.  When sunrise is before sunset the night table is never used:
    outside the day the scene is the overcast one whatever the condition
    code, and the night sky scene is shown at no time. *)
Theorem night_scenes_are_out_of_reach (weatherId sunrise sunset utcTime : Z) :
  sunrise < sunset ->
  splineSceneUrl weatherId sunrise sunset utcTime <> moon /\
  (utcTime < sunrise \/ sunset <= utcTime ->
   splineSceneUrl weatherId sunrise sunset utcTime = overcast).
Proof.
  intros Hday. unfold splineSceneUrl.
  destruct (Z.leb_spec sunrise utcTime), (Z.ltb_spec utcTime sunset);
    cbn [andb].
  - split; [|lia].
    destruct (or_else_from (scene_of weatherId day_scenes) drizzle) as [E|E].
    + rewrite E. discriminate.
    + apply scene_of_in in E. intros Hmoon. rewrite Hmoon in E.
      revert E. clear. vm_compute. intuition discriminate.
  - destruct (Z.leb_spec utcTime sunrise), (Z.leb_spec sunset utcTime);
      cbn [andb]; try lia; split; auto; discriminate.
  - destruct (Z.leb_spec utcTime sunrise), (Z.leb_spec sunset utcTime);
      cbn [andb]; try lia; split; auto; discriminate.
  - lia.
Qed.

Lemma night_scenes_are_out_of_reach_witness :
  6 < 18 /\
  splineSceneUrl 800 6 18 23 <> moon /\
  (23 < 6 \/ 18 <= 23 -> splineSceneUrl 800 6 18 23 = overcast).
Proof.
  split; [lia|]. exact (night_scenes_are_out_of_reach 800 6 18 23 ltac:(lia)).
Defined.

End ViewProperties.

(* ================================================================== *)
(** ** Further properties: the carousels *)

Module CarouselProperties.
Import Carousel.
Local Open Scope Z_scope.

(** X13.  From an index within the list, the next and the previous index
    are within the list, and each of the two steps undoes the other. *)
Theorem carousel_steps_stay_in_range (length index : Z) :
  0 <= index < length ->
  0 <= handleNextArticle length index < length /\
  0 <= handlePrevArticle length index < length /\
  handlePrevArticle length (handleNextArticle length index) = index /\
  handleNextArticle length (handlePrevArticle length index) = index.
Proof.
  intros H. unfold handleNextArticle, handlePrevArticle.
  repeat match goal with
         | |- context [?a =? ?b] => destruct (Z.eqb_spec a b)
         end; lia.
Qed.

Lemma carousel_steps_stay_in_range_witness :
  0 <= 2 < 3 /\
  0 <= handleNextArticle 3 2 < 3 /\
  0 <= handlePrevArticle 3 2 < 3 /\
  handlePrevArticle 3 (handleNextArticle 3 2) = 2 /\
  handleNextArticle 3 (handlePrevArticle 3 2) = 2.
Proof.
  split; [lia|]. exact (carousel_steps_stay_in_range 3 2 ltac:(lia)).
Defined.


(** X14.  From an index within the list, the rotation timer goes round:
    after [ticks] turns the index is [(index + ticks) mod length]. *)
Theorem carousel_goes_round (length : Z) (ticks : nat) (index : Z) :
  0 <= index < length ->
  rotate length ticks index = (index + Z.of_nat ticks) mod length.
Proof.
  revert index. induction ticks as [|ticks IH]; intros index H.
  - simpl. rewrite Z.add_0_r. symmetry. apply Z.mod_small. exact H.
  - cbn [rotate]. destruct (Z.ltb_spec 0 length); [|lia].
    unfold handleNextArticle.
    destruct (Z.eqb_spec index (length - 1)) as [->|Hne].
    + rewrite IH by lia.
      replace (length - 1 + Z.of_nat (S ticks))
        with (0 + Z.of_nat ticks + 1 * length) by lia.
      now rewrite Z.mod_add by lia.
    + rewrite IH by lia. f_equal. lia.
Qed.

Lemma carousel_goes_round_witness :
  0 <= 1 < 3 /\ rotate 3 5 1 = (1 + Z.of_nat 5) mod 3.
Proof.
  split; [lia|]. exact (carousel_goes_round 3 5 1 ltac:(lia)).
Defined.


Lemma filter_index_before {A} (i start : Z) (l : list A) :
  i < start ->
  filter_index (fun index => negb (index =? i)) start l = l.
Proof.
  revert start. induction l as [|x l IH]; intros start H; simpl; auto.
  destruct (Z.eqb_spec start i); [lia|]. simpl. now rewrite IH by lia.
Qed.

Lemma filter_index_at {A} (k : nat) : forall (start : Z) (l : list A),
  filter_index (fun index => negb (index =? start + Z.of_nat k)) start l
  = firstn k l ++ skipn (S k) l.
Proof.
  induction k as [|k IH]; intros start [|x l]; simpl; auto.
  - destruct (Z.eqb_spec start (start + 0)); [|lia]. simpl.
    apply filter_index_before. lia.
  - destruct (Z.eqb_spec start (start + Z.pos (Pos.of_succ_nat k))); [lia|].
    simpl. f_equal.
    replace (start + Z.pos (Pos.of_succ_nat k)) with (start + 1 + Z.of_nat k)
      by lia.
    apply IH.
Qed.

(** X16.  When the image of the current world news article fails, that
    article alone is removed and the others keep their order; the index
    stays, so that the article that followed is shown, unless the removed
    article was the last, where the index returns to 0. *)
Theorem failed_image_is_removed {A} (articles : list A) (k : nat) :
  (k < List.length articles)%nat ->
  fst (handleImageError articles (Z.of_nat k))
  = firstn k articles ++ skipn (S k) articles /\
  ((S k < List.length articles)%nat ->
   snd (handleImageError articles (Z.of_nat k)) = Z.of_nat k /\
   nth_error (fst (handleImageError articles (Z.of_nat k))) k
   = nth_error articles (S k)) /\
  (S k = List.length articles ->
   snd (handleImageError articles (Z.of_nat k)) = 0).
Proof.
  intros Hk. unfold handleImageError. cbn [fst snd].
  assert (E : filter_index (fun index => negb (index =? Z.of_nat k)) 0 articles
              = firstn k articles ++ skipn (S k) articles)
    by apply (filter_index_at k 0 articles).
  rewrite E. split; auto. split.
  - intros Hlast.
    destruct (Z.leb_spec (Z.of_nat (List.length articles)) 1); [lia|].
    destruct (Z.leb_spec (Z.of_nat (List.length articles) - 1) (Z.of_nat k));
      [lia|].
    split; auto.
    rewrite nth_error_app2 by (rewrite length_firstn; lia).
    rewrite length_firstn, Nat.min_l, Nat.sub_diag by lia.
    rewrite <- (firstn_skipn (S k) articles) at 2.
    rewrite nth_error_app2 by (rewrite length_firstn; lia).
    rewrite length_firstn, Nat.min_l, Nat.sub_diag by lia. reflexivity.
  - intros Hlast.
    destruct (Z.leb_spec (Z.of_nat (List.length articles)) 1); auto.
    destruct (Z.leb_spec (Z.of_nat (List.length articles) - 1) (Z.of_nat k));
      [auto|lia].
Qed.

Lemma failed_image_is_removed_witness :
  (1 < List.length ["a"; "b"; "c"])%nat /\
  fst (handleImageError ["a"; "b"; "c"] (Z.of_nat 1))
  = firstn 1 ["a"; "b"; "c"] ++ skipn 2 ["a"; "b"; "c"] /\
  ((2 < List.length ["a"; "b"; "c"])%nat ->
   snd (handleImageError ["a"; "b"; "c"] (Z.of_nat 1)) = Z.of_nat 1 /\
   nth_error (fst (handleImageError ["a"; "b"; "c"] (Z.of_nat 1))) 1
   = nth_error ["a"; "b"; "c"] 2) /\
  (2%nat = List.length ["a"; "b"; "c"] ->
   snd (handleImageError ["a"; "b"; "c"] (Z.of_nat 1)) = 0).
Proof.
  split; [simpl; lia|].
  exact (failed_image_is_removed ["a"; "b"; "c"] 1 ltac:(simpl; lia)).
Defined.


End CarouselProperties.

(* ================================================================== *)
(** ** Further properties: the handlers of [main.js] *)

Module HandlerProperties.
Import JsString NodePath JsObject Runtime Main Spec Aux Notions.
Import ObjectFacts LoopFacts NewsFacts Examples.

Lemma for_of_invariant {A S} (P : S -> Prop) (f : S -> A -> result S) l :
  (forall s x s', P s -> f s x = Ok s' -> P s') ->
  forall s out, P s -> for_of f l s = Ok out -> P out.
Proof.
  intros Hstep. induction l as [|x l IH]; intros s out Hs H.
  - simpl in H. now injection H as <-.
  - apply for_of_cons in H. destruct H as (s1 & H1 & H2). eauto.
Qed.

Lemma for_of_err {A S} (f : S -> A -> result S) l : forall s e,
  for_of f l s = Err e -> exists x s', In x l /\ f s' x = Err e.
Proof.
  induction l as [|x l IH]; intros s e H; simpl in H; [discriminate|].
  destruct (f s x) as [s1|e1] eqn:E; simpl in H.
  - destruct (IH _ _ H) as (y & s' & Hy & He). exists y, s'. split; auto.
    now right.
  - injection H as <-. exists x, s. split; auto. now left.
Qed.

(** *** [trim] leaves nothing to trim *)

Lemma trimStart_black s : starts_black (trimStart s).
Proof.
  induction s as [|c s IH]; simpl; auto.
  destruct (is_white c) eqn:E; simpl; auto.
Qed.

Lemma trimStart_of_black s : starts_black s -> trimStart s = s.
Proof. destruct s as [|c s]; simpl; auto. now intros ->. Qed.

Lemma trimEnd_again s : trimEnd (trimEnd s) = trimEnd s.
Proof.
  induction s as [|c s IH]; [reflexivity|].
  cbn [trimEnd]. destruct (trimEnd s) as [|c' r] eqn:E.
  - destruct (is_white c) eqn:Ec; [reflexivity|].
    cbn [trimEnd]. now rewrite Ec.
  - change (trimEnd (String c (String c' r)))
      with (match trimEnd (String c' r) with
            | EmptyString =>
                if is_white c then EmptyString else String c EmptyString
            | String a r0 => String c (String a r0)
            end).
    now rewrite IH.
Qed.

Lemma trimEnd_black s : starts_black s -> starts_black (trimEnd s).
Proof.
  destruct s as [|c s]; simpl; auto. intros Hc.
  destruct (trimEnd s); simpl; auto. now rewrite Hc.
Qed.

Lemma trim_again s : trim (trim s) = trim s.
Proof.
  unfold trim.
  rewrite (trimStart_of_black (trimEnd (trimStart s)))
    by apply trimEnd_black, trimStart_black.
  apply trimEnd_again.
Qed.

(** X10.  Whatever the file system, every announcement returned has
    from 1 to 100 characters and neither begins nor ends with white space:
    trimming it again changes nothing. *)
Theorem announcements_are_trimmed_and_short (fs : FileSystem) :
  exists out,
    outcome (get_announcements fs) = Returns out /\
    Forall (fun a => 1 <= String.length (content a) <= 100
                     /\ trim (content a) = content a) out.
Proof.
  unfold get_announcements.
  destruct (announcements_of fs) as [out|e] eqn:H; simpl.
  - exists out. split; auto. unfold announcements_of in H.
    destruct (readdir fs announcementsDir) as [files|e]; [|discriminate].
    simpl in H. revert H. apply for_of_invariant; [|constructor].
    intros acc file acc' Hacc. unfold announce.
    destruct (String.eqb _ ".txt"); [|now intros [= <-]].
    destruct (readFileUtf8 fs _) as [text|e]; simpl; [|discriminate].
    destruct (Nat.ltb_spec 0 (String.length (trim text)));
      destruct (Nat.leb_spec (String.length (trim text)) 100); simpl;
      intros [= <-]; auto.
    apply Forall_app. split; auto. constructor; [|constructor].
    simpl. split; [lia | apply trim_again].
  - exists []. split; auto.
Qed.

(** X9.  Whatever the file system, no two articles returned by the news
    handler have the same title. *)
Theorem article_titles_are_distinct (fs : FileSystem) :
  exists out,
    outcome (get_news_articles fs) = Returns out /\ NoDup (map title out).
Proof.
  unfold get_news_articles.
  destruct (news_articles fs) as [out|e] eqn:H; simpl.
  - exists out. split; auto. now apply news_articles_shape in H.
  - exists []. split; auto. constructor.
Qed.

(** X11.  The announcement handler writes an error to the console only
    when the listing of its directory failed or the read of a text file of
    the listing failed. *)
Theorem errors_are_logged_only_for_failures (fs : FileSystem) :
  console (get_announcements fs) <> [] -> announcements_scan_fails fs.
Proof.
  unfold get_announcements.
  destruct (announcements_of fs) as [out|e] eqn:H; simpl; [congruence|].
  intros _. unfold announcements_of in H.
  destruct (readdir fs announcementsDir) as [files|e'] eqn:Hdir; simpl in H.
  - apply for_of_err in H. destruct H as (file & acc & Hin & He).
    unfold announce in He.
    destruct (String.eqb (toLowerCase (extname file)) ".txt") eqn:Et;
      [|discriminate].
    destruct (readFileUtf8 fs (join announcementsDir file)) as [text|e1] eqn:Hr;
      simpl in He.
    + destruct ((0 <? String.length (trim text))%nat
                && (String.length (trim text) <=? 100)%nat); discriminate.
    + eapply announcement_read_fails; eauto.
  - eapply announcements_listing_fails; eauto.
Qed.

Lemma errors_are_logged_only_for_failures_witness :
  console (get_announcements offline_fs) <> [] /\
  announcements_scan_fails offline_fs.
Proof.
  assert (Ha : console (get_announcements offline_fs) <> [])
    by (simpl; discriminate).
  split; [exact Ha | exact (errors_are_logged_only_for_failures offline_fs Ha)].
Defined.

(** X12.  An article that has an image is shown with its image, alone
    when its description is empty and beside the text otherwise; an
    article without an image is shown as text.  This holds for every
    article that the news handler returns. *)
Theorem every_image_is_shown (fs : FileSystem) :
  exists out,
    outcome (get_news_articles fs) = Returns out /\
    Forall (fun a =>
              StybergNewsView.layout_of a =
              match imagePath a with
              | None => StybergNewsView.OnlyText
              | Some _ => if String.eqb (description a) ""
                          then StybergNewsView.OnlyImage
                          else StybergNewsView.ImageAndText
              end) out.
Proof.
  unfold get_news_articles.
  destruct (news_articles fs) as [out|e] eqn:H; simpl.
  - exists out. split; auto.
    destruct (news_articles_shape _ _ H) as [_ Hall].
    eapply Forall_impl; [|exact Hall]. simpl.
    intros a [_ [Himg|(mimeType & encoded & Himg)]];
      unfold StybergNewsView.layout_of, StybergNewsView.hasImage,
        StybergNewsView.hasText, truthy; rewrite Himg; [reflexivity|].
    unfold data_uri. simpl.
    now destruct (String.eqb (description a) "").
  - exists []. split; auto.
Qed.

(** X17.  With [Object.prototype] as the engine made it, and in a
    listing without a recognized file of stem [__proto__], a stem that
    carries a recognized file and names no member of [Object.prototype]
    yields exactly one Article, titled with the stem:
    its description is the trimmed content of the stem's text file, or
    empty without one; its imagePath is the data URI of the bytes of the
    stem's image file, or null without one.  Any other stem yields none.
    The stem of an entry is what [path.basename] leaves of its name when
    given the lower-cased extension. *)
Theorem one_article_per_stem
    (fs : FileSystem) (files : list string) (out : list Article)
    (stem : string) :
  readdir fs newsDir = Ok files ->
  unpolluted fs files ->
  get_news_articles fs = {| outcome := Returns out; console := [] |} ->
  if yields files stem && negb (names_member stem) then
    exists before a after,
      out = before ++ a :: after /\
      (forall a', In a' (before ++ after) -> title a' <> stem) /\
      title a = stem /\
      match text_of stem files with
      | Some t => exists text, readFileUtf8 fs (join newsDir t) = Ok text
                               /\ description a = trim text
      | None => description a = ""
      end /\
      match image_of stem files with
      | Some i => exists bytes mimeType,
                    readFile fs (join newsDir i) = Ok bytes /\
                    mimeType_of fs i = Ok mimeType /\
                    imagePath a = Some (data_uri mimeType (base64 bytes))
      | None => imagePath a = None
      end
  else forall a, In a out -> title a <> stem.
Proof.
  intros Hdir Hpol Hout.
  assert (Hbody : news_articles fs = Ok out).
  { unfold get_news_articles in Hout.
    destruct (news_articles fs); [|discriminate]. now injection Hout as ->. }
  destruct (news_articles_ok _ _ _ Hdir Hpol Hbody) as [Ht Hall].
  destruct (news_articles_shape _ _ Hbody) as [Hnd _].
  destruct (yields files stem && negb (names_member stem)) eqn:Hy.
  - assert (Hin : In stem (map title out)).
    { rewrite Ht. apply filter_In. split; auto.
      apply andb_true_iff in Hy. destruct Hy as [Hy Hm].
      eapply Permutation_in; [symmetry; apply enumeration_order_perm|].
      apply filter_In. split; auto. apply first_seen_in.
      unfold yields in Hy. apply existsb_exists in Hy.
      destruct Hy as (f & Hf & Hp). apply andb_true_iff in Hp.
      destruct Hp as [Hs _]. apply String.eqb_eq in Hs. subst stem.
      now apply in_map. }
    apply in_map_iff in Hin. destruct Hin as (a & Ha & Hin).
    destruct (in_split _ _ Hin) as (before & after & ->).
    exists before, a, after. split; auto. split; [|split; auto].
    + intros a' Ha' E. rewrite map_app in Hnd. simpl in Hnd.
      apply NoDup_remove_2 in Hnd. apply Hnd. rewrite <- map_app.
      rewrite Ha, <- E. now apply in_map.
    + rewrite Forall_forall in Hall.
      destruct (Hall a Hin) as (_ & _ & _ & Hdesc & Himg).
      rewrite Ha in Hdesc, Himg. simpl in Hdesc, Himg. split; auto.
      destruct (image_of stem files) as [i|]; auto.
      destruct Himg as (uri & (bytes & mimeType & Hr & Hm & ->) & Hi).
      eauto.
  - intros a Hin E.
    assert (H : In stem (map title out)) by (rewrite <- E; now apply in_map).
    rewrite Ht in H. apply filter_In in H. destruct H as [_ H]. congruence.
Qed.

Lemma one_article_per_stem_witness :
  readdir newsroom_fs newsDir = Ok newsroom /\
  unpolluted newsroom_fs newsroom /\
  exists before a after,
    [ {| type := "article"; title := "a"; description := "hello";
         imagePath := Some "data:image/jpeg;base64,TWFu" |};
      {| type := "article"; title := "b"; description := "";
         imagePath := Some "data:image/png;base64,TWFu" |};
      {| type := "article"; title := "c"; description := "hello";
         imagePath := None |} ] = before ++ a :: after /\
    (forall a', In a' (before ++ after) -> title a' <> "a") /\
    title a = "a" /\
    (exists text, readFileUtf8 newsroom_fs (join newsDir "a.txt") = Ok text
                  /\ description a = trim text) /\
    (exists bytes mimeType,
       readFile newsroom_fs (join newsDir "a.jpg") = Ok bytes /\
       mimeType_of newsroom_fs "a.jpg" = Ok mimeType /\
       imagePath a = Some (data_uri mimeType (base64 bytes))).
Proof.
  split; [reflexivity|]. split; [split; reflexivity|].
  exact (one_article_per_stem newsroom_fs newsroom _ "a"
           eq_refl (conj eq_refl eq_refl) eq_refl).
Defined.


(** *** The names of the members of [Object.prototype] *)

Lemma assign_unnamed h baseName field file :
  field = "textFile" \/ field = "imageFile" ->
  unnamed_keys h -> unnamed_keys (assign h baseName field file).
Proof.
  intros Hf [Hown Hinh]. unfold assign, property.
  destruct (get baseName (fileGroups h)) as [g|] eqn:Hg.
  - split; auto. cbn [fileGroups]. intros k Hk.
    rewrite get_set_other; auto. intros ->. rewrite (Hown _ Hk) in Hg.
    discriminate.
  - destruct (inherit baseName); [now split | | ].
    + split; auto. cbn [prototype]. intros k Hk.
      rewrite created_set_add_key in Hk. unfold add_key in Hk.
      destruct (existsb _ _); auto.
      apply in_app_iff in Hk. destruct Hk as [Hk|[<-|[]]]; auto.
    + destruct (get baseName (prototype h)); now split.
Qed.

Lemma group_file_unnamed_keys h file :
  unnamed_keys h -> unnamed_keys (group_file h file).
Proof.
  intros H. unfold group_file.
  assert (H' : unnamed_keys
                 (if truthy_value (property h (baseName_of file)) then h
                  else {| fileGroups := set (baseName_of file) empty_group
                                            (fileGroups h);
                          prototype := prototype h |})).
  { destruct (truthy_value (property h (baseName_of file))) eqn:E; auto.
    destruct H as [Hown Hinh]. split; auto. cbn [fileGroups].
    intros k Hk. rewrite get_set_other; auto. intros ->.
    unfold property in E. rewrite (Hown _ Hk) in E.
    unfold names_member in Hk.
    destruct (inherit (baseName_of file)); discriminate. }
  destruct (String.eqb (ext_of file) ".txt");
    [apply assign_unnamed; auto|].
  destruct (includes image_extensions (ext_of file)); auto.
  apply assign_unnamed; auto.
Qed.

Lemma group_files_unnamed_keys p files :
  unnamed_keys (group_files (properties p) files).
Proof.
  unfold group_files.
  assert (H : unnamed_keys
                {| fileGroups := empty; prototype := properties p |}).
  { split; [reflexivity|]. destruct p; simpl; intuition. }
  revert H.
  generalize {| fileGroups := @empty group; prototype := properties p |}.
  induction files as [|f files IH]; intros h H; simpl; auto.
  apply IH. now apply group_file_unnamed_keys.
Qed.

(** X19.  Whatever the file system holds, no article is titled with the
    name of a member of [Object.prototype]: the files of such a stem, like
    [constructor.txt], make no group of their own and yield no article. *)
Theorem member_names_are_no_titles (fs : FileSystem) :
  exists out,
    outcome (get_news_articles fs) = Returns out /\
    Forall (fun a => names_member (title a) = false) out.
Proof.
  unfold get_news_articles.
  destruct (news_articles fs) as [out|e] eqn:H; simpl.
  - exists out. split; auto. unfold news_articles in H.
    destruct (readdir fs newsDir) as [files|e]; simpl in H; [|discriminate].
    apply for_of_emit_shape in H;
      [|apply for_in_nodup, group_files_distinct].
    destruct H as (new & -> & _ & Hin & _). simpl.
    apply Forall_forall. intros a Ha. specialize (Hin a Ha).
    destruct (group_files_unnamed_keys (objectPrototype fs) files)
      as [Hown Hinh].
    unfold for_in in Hin. apply in_app_iff in Hin. destruct Hin as [Hin|Hin].
    + apply keys_in, in_created_get in Hin. destruct Hin as [g Hg].
      destruct (names_member (title a)) eqn:E; auto.
      rewrite (Hown _ E) in Hg. discriminate.
    + apply filter_In in Hin. destruct Hin as [Hin _].
      apply keys_in, Hinh in Hin. now destruct Hin as [-> | ->].
  - exists []. split; auto.
Qed.

(** X20.  A text file of stem [__proto__] is assigned to
    [Object.prototype]: every group inherits it as its text, and
    [for ... in] meets the property [textFile] as one more key.  With a
    picture beside it, the picture is described by the text, and an article
    titled ["textFile"] follows. *)
Theorem prototype_text_is_everyones :
  get_news_articles (listing_fs prototype_text " shared " [x4d]) =
  {| outcome :=
       Returns [ {| type := "article"; title := "b";
                    description := "shared";
                    imagePath := Some "data:image/png;base64,TQ==" |};
                 {| type := "article"; title := "textFile";
                    description := "shared"; imagePath := None |} ];
     console := [] |}.
Proof. reflexivity. Qed.


End HandlerProperties.

Module WorldNewsProperties.
Import JsString Runtime WorldNews Notions.

Lemma truthy_iff s : truthy s = true <-> s <> "".
Proof.
  unfold truthy. destruct (String.eqb_spec s ""); simpl; split; congruence.
Qed.

Lemma keep_publishable a : keep a = true <-> publishable a.
Proof.
  unfold keep, publishable. destruct a as [[t|] [i|] [d|]]; simpl;
    rewrite ?andb_true_iff, ?andb_false_r;
    try (split; [discriminate | intros (t' & i' & d' & H); intuition discriminate]);
    try (split; [intuition discriminate | intros (t' & i' & d' & H); intuition discriminate]).
  rewrite !truthy_iff, Nat.leb_le. split.
  - intros [[Ht [Hi Hp]] [Hd Hl]]. exists t, i, d. repeat split; auto.
    destruct d; [congruence | simpl; lia].
  - intros (t' & i' & d' & [= <-] & Ht & [= <-] & Hp & [= <-] & Hl).
    repeat split; auto.
    + intros ->. discriminate.
    + intros ->. simpl in Hl. lia.
    + lia.
Qed.

(** X8.  ['fetch-news'] returns, in the order of the answer, exactly the
    articles that have a non-empty title, an image address that begins
    with [http] and a description of 1 to 400 characters; a rejected
    request is thrown on to the caller. *)
Theorem world_news_are_publishable :
  (forall articles,
      exists p,
        fetch_news (Ok (Some articles)) = Returns (filter p articles) /\
        forall a, p a = true <-> publishable a) /\
  (forall e, fetch_news (Err e) = Throws e).
Proof.
  split; [|reflexivity].
  intros articles. exists keep. split; [reflexivity | apply keep_publishable].
Qed.

End WorldNewsProperties.

(* ================================================================== *)
(** ** Further properties: the forecast bucketer *)

Module ForecastProperties.
Import JsString JsObject Runtime Weather Spec Aux Notions JsDate.
Import ObjectFacts LoopFacts WeatherFacts DateFacts Examples.

Lemma NoDup_firstn {A} n (l : list A) : NoDup l -> NoDup (firstn n l).
Proof.
  intros H. rewrite <- (firstn_skipn n l) in H.
  now apply NoDup_app_remove_r in H.
Qed.

(** X5.  For every input, a returned forecast has at most four records,
    no two of them for the same date; the date of each record is the date
    of some sample and, as a string, not before today's date. *)
Theorem forecast_has_at_most_four_dates
    (now : Z) (items : list ForecastSample) (out : list DayForecast) :
  processForecastData now items = Ok out ->
  List.length out <= 4 /\
  NoDup (map date out) /\
  exists today,
    toISODate now = Ok today /\
    forall r, In r out ->
      JsString.ge (date r) today = true /\
      exists item, In item items /\ dateString_of item = Ok (date r).
Proof.
  intros H. apply process_inv in H.
  destruct H as (G & today & HG & Ht & ->).
  assert (Hdates : map date (map (fun d => day_forecast d (bucket d items))
                                 (selected G today)) = selected G today)
    by (rewrite map_map; simpl; apply map_id).
  destruct (grouping_ok _ _ _ HG) as (Hall & Hcreated & _).
  simpl in Hcreated. rewrite fold_add_key_nil in Hcreated.
  split; [|split].
  - rewrite length_map. unfold selected. rewrite length_firstn. lia.
  - rewrite Hdates. unfold selected. apply NoDup_firstn.
    eapply Permutation_NoDup; [symmetry; apply sort_perm|].
    apply NoDup_filter. rewrite keys_enumeration, Hcreated.
    apply enumeration_order_nodup, first_seen_nodup.
  - exists today. split; auto. intros r Hr.
    assert (Hd : In (date r) (selected G today))
      by (rewrite <- Hdates; now apply in_map).
    unfold selected in Hd. apply firstn_in in Hd.
    apply (Permutation_in _ (sort_perm _)) in Hd.
    apply filter_In in Hd. destruct Hd as [Hk Hge]. split; auto.
    apply keys_in in Hk. rewrite Hcreated in Hk.
    apply first_seen_in, in_map_iff in Hk. destruct Hk as (item & Hkey & Hin).
    exists item. split; auto.
    rewrite Forall_forall in Hall. rewrite (Hall item Hin). now rewrite Hkey.
Qed.

Lemma forecast_has_at_most_four_dates_witness :
  let out :=
    [ {| date := "2025-11-03"; temp_min := Finite (inject_Z 70);
         temp_max := Finite (inject_Z 80); condition := Some "Clear" |};
      {| date := "2025-11-04"; temp_min := Finite (inject_Z 60);
         temp_max := Finite (inject_Z 65); condition := Some "Rain" |};
      {| date := "2025-11-05"; temp_min := Finite (inject_Z 90);
         temp_max := Finite (inject_Z 95); condition := Some "Clear" |} ] in
  processForecastData (midnight * 1000) three_days = Ok out /\
  List.length out <= 4 /\
  NoDup (map date out) /\
  exists today,
    toISODate (midnight * 1000) = Ok today /\
    forall r, In r out ->
      JsString.ge (date r) today = true /\
      exists item, In item three_days /\ dateString_of item = Ok (date r).
Proof.
  intros out.
  assert (H : processForecastData (midnight * 1000) three_days = Ok out)
    by (vm_compute; reflexivity).
  split; [exact H|].
  exact (forecast_has_at_most_four_dates _ _ out H).
Defined.


Lemma group_item_invalid G item :
  valid_time (dt item * 1000) = false -> group_item G item = Err range_error.
Proof.
  intros H. unfold group_item, dateString_of, toISODate. now rewrite H.
Qed.

Lemma grouping_invalid items : forall G,
  forallb (fun item => valid_time (dt item * 1000)) items = false ->
  for_of group_item items G = Err range_error.
Proof.
  induction items as [|x items IH]; intros G H; simpl in H; [discriminate|].
  simpl. destruct (valid_time (dt x * 1000)) eqn:Hx; simpl in H.
  - destruct (group_item_total G x (iso_date (Day (dt x * 1000)))) as [G1 HG1].
    { unfold dateString_of, toISODate. now rewrite Hx. }
    rewrite HG1. simpl. now apply IH.
  - now rewrite group_item_invalid.
Qed.

(** X6.  [processForecastData] returns when the time of the call and the
    time of every sample are valid dates, at most 8.64e15 ms from the
    epoch; otherwise it throws the RangeError of [toISOString]. *)
Theorem forecast_throws_for_invalid_times
    (now : Z) (items : list ForecastSample) :
  if valid_time now && forallb (fun item => valid_time (dt item * 1000)) items
  then exists out, processForecastData now items = Ok out
  else processForecastData now items = Err range_error.
Proof.
  destruct (forallb (fun item => valid_time (dt item * 1000)) items) eqn:Hitems.
  - destruct (grouping_total items empty) as [G HG].
    { apply Forall_forall. intros item Hin.
      rewrite forallb_forall in Hitems. specialize (Hitems item Hin).
      unfold dateString_of, toISODate. rewrite Hitems. eauto. }
    destruct (valid_time now) eqn:Hnow; simpl.
    + eexists. apply (process_eq now items G (iso_date (Day now)) HG).
      unfold toISODate. now rewrite Hnow.
    + unfold processForecastData. rewrite HG. simpl.
      unfold toISODate. now rewrite Hnow.
  - rewrite andb_false_r. unfold processForecastData.
    now rewrite grouping_invalid.
Qed.

(** X7.  When the temperatures of the samples are finite, so are
    [temp_min] and [temp_max] of every record: the initial [Infinity] and
    [-Infinity] never reach the output. *)
Theorem sentinels_never_leak
    (now : Z) (items : list ForecastSample) (out : list DayForecast) :
  (forall item, In item items -> finite (temp item)) ->
  processForecastData now items = Ok out ->
  forall r, In r out -> finite (temp_min r) /\ finite (temp_max r).
Proof.
  intros Hfin H r Hr.
  destruct (record_of_bucket _ _ _ _ H Hr) as [Hne Heq].
  set (dayData := bucket (date r) items) in *.
  assert (Hsub : forall item, In item dayData -> finite (temp item)).
  { intros item Hin. apply Hfin. unfold dayData in Hin.
    rewrite bucket_dated in Hin. now apply filter_In in Hin. }
  destruct (tally_min dayData start) as (_ & Hlow & Hmin).
  destruct (tally_max dayData start) as (_ & Hhigh & Hmax).
  assert (Emin : temp_min r = minTemp (fold_left tally_item dayData start))
    by (rewrite Heq; reflexivity).
  assert (Emax : temp_max r = maxTemp (fold_left tally_item dayData start))
    by (rewrite Heq; reflexivity).
  rewrite <- Emin in Hlow, Hmin. rewrite <- Emax in Hhigh, Hmax.
  destruct dayData as [|x l] eqn:E; [congruence|].
  assert (Hx : finite (temp x)) by (apply Hsub; now left).
  split.
  - destruct Hmin as [Hmin|Hmin].
    + simpl in Hmin. pose proof (Hlow x (or_introl eq_refl)) as Hle.
      rewrite Hmin in Hle. apply le_Infinity in Hle. rewrite Hle in Hx.
      contradiction.
    + apply in_map_iff in Hmin. destruct Hmin as (item & <- & Hin). auto.
  - destruct Hmax as [Hmax|Hmax].
    + simpl in Hmax. pose proof (Hhigh x (or_introl eq_refl)) as Hle.
      rewrite Hmax in Hle. apply le_NegInfinity in Hle. rewrite Hle in Hx.
      contradiction.
    + apply in_map_iff in Hmax. destruct Hmax as (item & <- & Hin). auto.
Qed.

Lemma sentinels_never_leak_witness :
  let out :=
    [ {| date := "2025-11-03"; temp_min := Finite (inject_Z 49);
         temp_max := Finite (inject_Z 51); condition := Some "Rain" |} ] in
  (forall item, In item rainy_day -> finite (temp item)) /\
  processForecastData (midnight * 1000) rainy_day = Ok out /\
  forall r, In r out -> finite (temp_min r) /\ finite (temp_max r).
Proof.
  intros out.
  assert (Hfin : forall item, In item rainy_day -> finite (temp item)).
  { intros item Hin. simpl in Hin.
    repeat (destruct Hin as [<-|Hin]; [exact I|]). contradiction. }
  assert (H : processForecastData (midnight * 1000) rainy_day = Ok out)
    by (vm_compute; reflexivity).
  split; [exact Hfin | split; [exact H|]].
  exact (sentinels_never_leak _ _ out Hfin H).
Defined.

(** X18.  A record whose bucket has a label that names no member of
    [Object.prototype] has a condition, and the condition is a label of
    the bucket. *)
Theorem ordinary_label_gives_condition
    (now : Z) (items : list ForecastSample) (out : list DayForecast)
    (r : DayForecast) (c : string) :
  processForecastData now items = Ok out ->
  In r out ->
  In c (labels (bucket (date r) items)) ->
  names_member c = false ->
  exists c', condition r = Some c' /\ In c' (labels (bucket (date r) items)).
Proof.
  intros H Hr Hc Hm. destruct (record_of_bucket _ _ _ _ H Hr) as [_ Heq].
  destruct (condition_of_ordinary (date r) _ c Hc Hm) as (c' & Hc' & Hin).
  exists c'. split; [now rewrite Heq | exact Hin].
Qed.

Lemma ordinary_label_gives_condition_witness :
  let r := {| date := "2025-11-03"; temp_min := Finite (inject_Z 49);
              temp_max := Finite (inject_Z 51); condition := Some "Rain" |} in
  processForecastData (midnight * 1000) rainy_day = Ok [r] /\
  In "Clear" (labels (bucket "2025-11-03" rainy_day)) /\
  names_member "Clear" = false /\
  exists c', Some "Rain" = Some c'
             /\ In c' (labels (bucket "2025-11-03" rainy_day)).
Proof.
  intros r.
  assert (H : processForecastData (midnight * 1000) rainy_day = Ok [r])
    by (vm_compute; reflexivity).
  assert (Hc : In "Clear" (labels (bucket (date r) rainy_day)))
    by (vm_compute; auto).
  split; [exact H | split; [exact Hc | split; [reflexivity|]]].
  exact (ordinary_label_gives_condition _ _ _ r "Clear" H (or_introl eq_refl)
           Hc eq_refl).
Defined.


End ForecastProperties.
